(** * dotmgr: the generalize/specialize filters of [dotmgr/manager.py]

    A shallow embedding of the [Manager] class of dotmgr and the proofs of
    the properties its specification states about it.

    Python text is modelled as a list of characters, a character being its
    code point; the development covers text whose code points lie below 256.
    Printing goes to a list of printed strings, one per [print] call. *)

From Stdlib Require Import Ascii String.
From Stdlib Require Import List Bool Arith Lia.
Import ListNotations.
Local Open Scope string_scope.
Local Open Scope list_scope.

(** ** Python strings *)

Definition str := list ascii.

(** A literal of the source. *)
Definition lit (s : string) : str := list_ascii_of_string s.

Arguments lit : simpl never.

Definition LF : ascii := ascii_of_nat 10.
Definition CR : ascii := ascii_of_nat 13.

(** A text given line by line, every line closed by a line feed. *)
Definition text (ls : list string) : str :=
  concat (map (fun l => lit l ++ [LF]) ls).

Definition str_eqb (a b : str) : bool :=
  if list_eq_dec ascii_dec a b then true else false.

(** [str.isspace] on one character: the code points below 256 that Python
    counts as whitespace, in [str.split()] and in the regular expression
    class [\s] alike. *)
Definition isspace (c : ascii) : bool :=
  let n := nat_of_ascii c in
  (((9 <=? n) && (n <=? 13)) || ((28 <=? n) && (n <=? 32))
   || (n =? 133) || (n =? 160))%nat.

(** [s.startswith(p)] *)
Fixpoint startswith (p s : str) : bool :=
  match p, s with
  | [], _ => true
  | _ :: _, [] => false
  | a :: p', b :: s' => Ascii.eqb a b && startswith p' s'
  end.

(** [sub in s] *)
Fixpoint str_in (sub s : str) : bool :=
  startswith sub s ||
  match s with
  | [] => false
  | _ :: s' => str_in sub s'
  end.

(** [s.partition(sep)], [None] when [sep] does not occur: the text before
    the first occurrence of [sep] and the text after it. *)
Fixpoint partition (sep s : str) : option (str * str) :=
  if startswith sep s then Some ([], skipn (length sep) s)
  else match s with
       | [] => None
       | c :: s' =>
           match partition sep s' with
           | Some (a, b) => Some (c :: a, b)
           | None => None
           end
       end.

(** [s.split(sep)] for a non-empty [sep] (Python raises [ValueError] for an
    empty one; the source passes the literal [':'] and comment sequences,
    which are matches of [\S+]).  The scan restarts after each occurrence;
    [n] bounds the number of occurrences and [length s] is always enough. *)
Fixpoint split_from (n : nat) (sep s : str) : list str :=
  match partition sep s with
  | None => [s]
  | Some (a, b) =>
      a :: match n with
           | 0 => [b]
           | S n' => split_from n' sep b
           end
  end.

Definition str_split (sep s : str) : list str := split_from (length s) sep s.

(** [sep.join(parts)] *)
Fixpoint str_join (sep : str) (parts : list str) : str :=
  match parts with
  | [] => []
  | [p] => p
  | p :: rest => p ++ sep ++ str_join sep rest
  end.

(** The maximal runs of non-whitespace characters of [s], in order; [cur] is
    the run being read.  This is what both [s.split()] and
    [findall(r'\S+', s)] return. *)
Fixpoint runs_from (cur : str) (s : str) : list str :=
  match s with
  | [] => match cur with [] => [] | _ => [cur] end
  | c :: s' =>
      if isspace c
      then match cur with
           | [] => runs_from [] s'
           | _ => cur :: runs_from [] s'
           end
      else runs_from (cur ++ [c]) s'
  end.

(** [s.split()] *)
Definition split_whitespace (s : str) : list str := runs_from [] s.

(** [findall(r'\S+', s)] *)
Definition findall_nonspace (s : str) : list str := runs_from [] s.

(** ** Text files

    A file opened in text mode is read with universal newlines: a carriage
    return, alone or followed by a line feed, reads as one line feed.  Text
    is written as it is, the line separator of the system being the line
    feed. *)
Fixpoint universal_newlines (s : str) : str :=
  match s with
  | [] => []
  | c :: s' =>
      if Ascii.eqb c CR
      then match s' with
           | d :: s'' =>
               if Ascii.eqb d LF then LF :: universal_newlines s''
               else LF :: universal_newlines s'
           | [] => [LF]
           end
      else c :: universal_newlines s'
  end.

(** The lines of a text, each with its line feed. *)
Fixpoint cut_lines (s : str) : list str :=
  match s with
  | [] => []
  | c :: s' =>
      if Ascii.eqb c LF then [c] :: cut_lines s'
      else match cut_lines s' with
           | [] => [[c]]
           | l :: ls => (c :: l) :: ls
           end
  end.

(** [f.readlines()] on a file that holds [s]. *)
Definition readlines (s : str) : list str := cut_lines (universal_newlines s).

(** ** Paths ([os.path]) *)

Definition SEP : ascii := ascii_of_nat 47.

Fixpoint lstrip_char (c : ascii) (s : str) : str :=
  match s with
  | x :: s' => if Ascii.eqb x c then lstrip_char c s' else s
  | [] => []
  end.

(** [s.rstrip(c)] *)
Definition rstrip_char (c : ascii) (s : str) : str :=
  rev (lstrip_char c (rev s)).

(** The characters before the first separator. *)
Fixpoint before_sep (s : str) : str :=
  match s with
  | [] => []
  | x :: s' => if Ascii.eqb x SEP then [] else x :: before_sep s'
  end.

(** The text from the first separator on. *)
Fixpoint from_sep (s : str) : str :=
  match s with
  | [] => []
  | x :: s' => if Ascii.eqb x SEP then s else from_sep s'
  end.

(** [posixpath.join(a, b)] *)
Definition join (a b : str) : str :=
  if startswith [SEP] b then b
  else match a with
       | [] => b
       | _ => if Ascii.eqb (last a SEP) SEP then a ++ b else a ++ [SEP] ++ b
       end.

(** [posixpath.dirname(p)]: the text up to the last separator, without its
    trailing separators unless it consists of separators only. *)
Definition dirname (p : str) : str :=
  let head := rev (from_sep (rev p)) in
  if forallb (Ascii.eqb SEP) head then head else rstrip_char SEP head.

(** [posixpath.basename(p)] *)
Definition basename (p : str) : str := rev (before_sep (rev p)).

(** ** The process and its file system

    The file system is a map from path strings to what is stored there;
    parent directories and permissions are not tracked, and the target of a
    symbolic link is followed as it is written.  Of the parents of a path
    one thing is looked at: where nothing is stored, removing and opening
    for reading fail with [NotADirectoryError] when a parent component of
    the path is a regular file, and with [FileNotFoundError] otherwise. *)

Inductive node : Type :=
| File (content : str)
| Link (target : str)
| Dir.

Inductive exn : Type :=
| FileNotFoundError
| NotADirectoryError
| IsADirectoryError
| FileExistsError
| IndexError
| ShutilError
| OSError.

Definition exn_eqb (a b : exn) : bool :=
  match a, b with
  | FileNotFoundError, FileNotFoundError
  | NotADirectoryError, NotADirectoryError
  | IsADirectoryError, IsADirectoryError
  | FileExistsError, FileExistsError
  | IndexError, IndexError
  | ShutilError, ShutilError
  | OSError, OSError => true
  | _, _ => false
  end.

(** How a call ends: it returns, the process exits ([exit()]), or an
    exception propagates. *)
Inductive outcome (A : Type) : Type :=
| Return (a : A)
| Exit
| Raise (e : exn).

Arguments Return {A} a.
Arguments Exit {A}.
Arguments Raise {A} e.

Record world : Type := World {
  files : str -> option node;
  stdout : list str;
  HOME : str;
  hostname : str
}.

Definition M (A : Type) : Type := world -> outcome A * world.

Definition ret {A} (a : A) : M A := fun w => (Return a, w).

Definition bind {A B} (c : M A) (k : A -> M B) : M B :=
  fun w =>
    match c w with
    | (Return a, w') => k a w'
    | (Exit, w') => (Exit, w')
    | (Raise e, w') => (Raise e, w')
    end.

Notation "x <- c ;; k" := (bind c (fun x => k))
  (at level 61, c at next level, right associativity).
Notation "c ;; k" := (bind c (fun _ => k))
  (at level 61, right associativity).

Definition raise {A} (e : exn) : M A := fun w => (Raise e, w).

(** [exit()] *)
Definition sys_exit {A} : M A := fun w => (Exit, w).

Definition get {A} (f : world -> A) : M A := fun w => (Return (f w), w).

(** [try: body except e: handler] *)
Definition try_except {A} (e : exn) (body handler : M A) : M A :=
  fun w =>
    match body w with
    | (Raise e', w') => if exn_eqb e e' then handler w' else (Raise e', w')
    | r => r
    end.

Definition print (s : str) : M unit :=
  fun w => (Return tt,
            {| files := files w; stdout := stdout w ++ [s];
               HOME := HOME w; hostname := hostname w |}).

Fixpoint print_all (ss : list str) : M unit :=
  match ss with
  | [] => ret tt
  | s :: rest => print s ;; print_all rest
  end.

Definition when (b : bool) (c : M unit) : M unit := if b then c else ret tt.

Definition store (p : str) (n : option node) : M unit :=
  fun w => (Return tt,
            {| files := fun q => if str_eqb q p then n else files w q;
               stdout := stdout w; HOME := HOME w; hostname := hostname w |}).

(** Following the symbolic links at [p], at most [n] of them: the path
    reached and what is stored there. *)
Fixpoint follow (n : nat) (fs : str -> option node) (p : str)
  : option (str * option node) :=
  match fs p with
  | Some (Link t) =>
      match n with
      | 0 => None
      | S n' => follow n' fs t
      end
  | x => Some (p, x)
  end.

Definition MAXSYMLINKS : nat := 40.

(** [os.path.islink(p)] *)
Definition islink (p : str) : M bool :=
  get (fun w => match files w p with Some (Link _) => true | _ => false end).

(** [os.path.exists(p)] *)
Definition exists_ (p : str) : M bool :=
  get (fun w => match follow MAXSYMLINKS (files w) p with
                | Some (_, Some _) => true
                | _ => false
                end).

(** [os.path.isdir(p)] *)
Definition isdir (p : str) : M bool :=
  get (fun w => match follow MAXSYMLINKS (files w) p with
                | Some (_, Some Dir) => true
                | _ => false
                end).

(** The parent components of a path: its prefixes that end before a
    separator, the empty one left out; [before] is the part of the path
    read so far. *)
Fixpoint ancestors_from (before rest : str) : list str :=
  match rest with
  | [] => []
  | c :: rest' =>
      (if Ascii.eqb c SEP
       then match before with [] => [] | _ => [before] end
       else [])
      ++ ancestors_from (before ++ [c]) rest'
  end.

Definition ancestors (p : str) : list str := ancestors_from [] p.

(** A regular file is stored at [q], or where the links at [q] lead. *)
Definition is_regular (fs : str -> option node) (q : str) : bool :=
  match follow MAXSYMLINKS fs q with
  | Some (_, Some (File _)) => true
  | _ => false
  end.

(** A parent component of [p] is a regular file. *)
Definition under_file (fs : str -> option node) (p : str) : bool :=
  existsb (is_regular fs) (ancestors p).

(** [os.remove(p)] *)
Definition remove (p : str) : M unit :=
  fs <- get files ;;
  match fs p with
  | None =>
      if under_file fs p then raise NotADirectoryError
      else raise FileNotFoundError
  | Some Dir => raise IsADirectoryError
  | Some _ => store p None
  end.

(** [os.makedirs(p, exist_ok=True)] *)
Definition makedirs (p : str) : M unit :=
  d <- isdir p ;;
  if d then ret tt
  else fs <- get files ;;
       match fs p with
       | Some _ => raise FileExistsError
       | None => store p (Some Dir)
       end.

(** [os.symlink(dest, link_path)] *)
Definition symlink (dest link_path : str) : M unit :=
  fs <- get files ;;
  match fs link_path with
  | Some _ => raise FileExistsError
  | None => store link_path (Some (Link dest))
  end.

(** [shutil.move(src, dst)] within one file system. *)
Definition move (src dst : str) : M unit :=
  fs <- get files ;;
  match fs src with
  | None => raise FileNotFoundError
  | Some n =>
      d <- isdir dst ;;
      if d
      then let real_dst := join dst (basename (rstrip_char SEP src)) in
           e <- exists_ real_dst ;;
           if e then raise ShutilError
           else store real_dst (Some n) ;; store src None
      else store dst (Some n) ;; store src None
  end.

(** [open(p).readlines()] *)
Definition open_readlines (p : str) : M (list str) :=
  fs <- get files ;;
  match follow MAXSYMLINKS fs p with
  | Some (_, Some (File content)) => ret (readlines content)
  | Some (_, Some _) => raise IsADirectoryError
  | Some (q, None) =>
      if under_file fs q then raise NotADirectoryError
      else raise FileNotFoundError
  | None => raise OSError
  end.

(** [open(p, 'w')]: the file is created or emptied; the path of the file
    that is written to stands for the open file. *)
Definition open_w (p : str) : M str :=
  fs <- get files ;;
  match follow MAXSYMLINKS fs p with
  | Some (_, Some Dir) => raise IsADirectoryError
  | Some (q, _) => store q (Some (File [])) ;; ret q
  | None => raise OSError
  end.

(** [dotfile.write(s)] *)
Definition write (dotfile : str) (s : str) : M unit :=
  fs <- get files ;;
  match fs dotfile with
  | Some (File content) => store dotfile (Some (File (content ++ s)))
  | _ => store dotfile (Some (File s))
  end.

Fixpoint write_all (dotfile : str) (chunks : list str) : M unit :=
  match chunks with
  | [] => ret tt
  | s :: rest => write dotfile s ;; write_all dotfile rest
  end.

(** ** The manager *)

(** The version-control collaborator: [path] and the calls the manager
    makes on it, whose behaviour is not the manager's. *)
Record Repository : Type := {
  path : str;
  repo_add : str -> M unit;
  repo_remove : str -> M unit;
  repo_update : str -> option str -> M unit
}.

Record Manager : Type := {
  dotfile_repository : Repository;
  dotfile_stage_path : str;
  dotfile_tag_config_path : str;
  verbose : bool;
  _tags : list str
}.

(** Truth value of a list. *)
Definition truthy {A} (l : list A) : bool :=
  match l with
  | [] => false
  | _ => true
  end.

(** [tag in section_tags] *)
Definition tag_in (section_tags : list str) (tag : str) : bool :=
  existsb (str_eqb tag) section_tags.

Definition home_path (home dotfile_name : str) : str :=
  rstrip_char SEP home ++ [SEP] ++ dotfile_name.

Definition stage_path (m : Manager) (dotfile_name : str) : str :=
  join (dotfile_stage_path m) dotfile_name.

Definition repo_path (m : Manager) (dotfile_name : str) : str :=
  join (path (dotfile_repository m)) dotfile_name.

(** *** [_get_tags] *)

Fixpoint _get_tags_scan (verbose : bool) (hostname : str)
  (tag_config : list str) : M (list str) :=
  match tag_config with
  | [] =>
      print (lit "Warning: No tags found for this machine!") ;;
      ret [[]]
  | line :: rest =>
      if startswith (hostname ++ lit ":") line
      then match nth_error (str_split (lit ":") line) 1 with
           | Some tags =>
               let tags := split_whitespace tags in
               when verbose
                 (print (lit "Found tags: " ++ str_join (lit ", ") tags)) ;;
               ret tags
           | None => raise IndexError
           end
      else _get_tags_scan verbose hostname rest
  end.

Definition _get_tags (tag_config_path : str) (verbose : bool)
  : M (list str) :=
  hostname <- get hostname ;;
  tag_config <- open_readlines tag_config_path ;;
  _get_tags_scan verbose hostname tag_config.

(** [Manager.__init__] *)
Definition Manager_init (repository : Repository)
  (stage_path tag_config_path : str) (verbose : bool) : M Manager :=
  tags <- _get_tags tag_config_path verbose ;;
  ret {| dotfile_repository := repository;
         dotfile_stage_path := stage_path;
         dotfile_tag_config_path := tag_config_path;
         verbose := verbose;
         _tags := tags |}.

(** *** [_identify_comment_sequence]

    The filters below do not touch the file system: what they print and what
    they write to the open dotfile is returned, in order. *)

Definition _identify_comment_sequence (m : Manager) (line : str)
  : outcome str * list str :=
  match findall_nonspace line with
  | [] => (Exit, [lit "Could not identify a comment character!"])
  | seq :: _ =>
      (Return seq,
       if verbose m
       then [lit "Identified comment character sequence: " ++ seq]
       else [])
  end.

(** *** The filters *)

(** One turn of a filter loop: the mode for the next line, what was written
    to the dotfile and what was printed. *)
Record turn : Type := Turn {
  mode : bool;
  written : str;
  printed : list str
}.

Definition found_section (m : Manager) (kind : string)
  (section_tags : list str) : list str :=
  if verbose m
  then [lit "Found section " ++ lit kind ++ lit " for "
        ++ str_join (lit ", ") section_tags]
  else [].

(** The body of the loop of [specialize]'s [filter_and_write]. *)
Definition specialize_line (m : Manager) (cseq : str) (comment_out : bool)
  (line : str) : turn :=
  let section_tags := tl (split_whitespace line) in
  let has_only := str_in (cseq ++ cseq ++ lit "only") line in
  let p1 := if has_only then found_section m "only" section_tags else [] in
  if has_only && negb (truthy (filter (tag_in section_tags) (_tags m)))
  then Turn true line p1
  else
    let comment_out := if has_only then false else comment_out in
    let has_not := str_in (cseq ++ cseq ++ lit "not") line in
    let p2 := if has_not then found_section m "not" section_tags else [] in
    if has_not && truthy (filter (tag_in section_tags) (_tags m))
    then Turn true line (p1 ++ p2)
    else
      let comment_out := if has_not then false else comment_out in
      let comment_out :=
        if str_in (cseq ++ cseq ++ lit "end") line then false
        else comment_out in
      if comment_out
      then Turn comment_out (cseq ++ line) (p1 ++ p2)
      else Turn comment_out line (p1 ++ p2).

(** The body of the loop of [generalize]'s [filter_and_write]. *)
Definition generalize_line (m : Manager) (cseq : str) (strip : bool)
  (line : str) : turn :=
  let section_tags := tl (split_whitespace line) in
  let has_only := str_in (cseq ++ cseq ++ lit "only") line in
  let p1 := if has_only then found_section m "only" section_tags else [] in
  if has_only && negb (truthy (filter (tag_in section_tags) (_tags m)))
  then Turn true line p1
  else
    let strip := if has_only then false else strip in
    let has_not := str_in (cseq ++ cseq ++ lit "not") line in
    let p2 := if has_not then found_section m "not" section_tags else [] in
    if has_not && truthy (filter (tag_in section_tags) (_tags m))
    then Turn true line (p1 ++ p2)
    else
      let strip := if has_not then false else strip in
      let strip :=
        if str_in (cseq ++ cseq ++ lit "end") line then false else strip in
      if strip
      then let slices := str_split cseq line in
           Turn strip (str_join cseq (tl slices)) (p1 ++ p2)
      else Turn strip line (p1 ++ p2).

(** A filter loop over the lines of [content]: what is written, piece by
    piece, and what is printed. *)
Fixpoint filter_loop (body : bool -> str -> turn) (state : bool)
  (content : list str) : list str * list str :=
  match content with
  | [] => ([], [])
  | line :: rest =>
      let t := body state line in
      let (ws, ps) := filter_loop body (mode t) rest in
      (written t :: ws, printed t ++ ps)
  end.

Definition filter_and_write (body : Manager -> str -> bool -> str -> turn)
  (m : Manager) (content : list str) : outcome (list str) * list str :=
  match content with
  | [] => (Raise IndexError, [])
  | first :: _ =>
      match _identify_comment_sequence m first with
      | (Return cseq, ps) =>
          let (ws, ps') := filter_loop (body m cseq) false content in
          (Return ws, ps ++ ps')
      | (Exit, ps) => (Exit, ps)
      | (Raise e, ps) => (Raise e, ps)
      end
  end.

(** [filter_and_write] of [specialize] *)
Definition specialize_filter_and_write := filter_and_write specialize_line.

(** [filter_and_write] of [generalize] *)
Definition generalize_filter_and_write := filter_and_write generalize_line.

(** Running a filter on an open dotfile. *)
Definition run_filter (r : outcome (list str) * list str) (dotfile : str)
  : M unit :=
  print_all (snd r) ;;
  match fst r with
  | Return chunks => write_all dotfile chunks
  | Exit => sys_exit
  | Raise e => raise e
  end.

(** *** The operations *)

(** What [generalize] prints for a dotfile that is not on stage. *)
Definition not_handled (dotfile_path : str) : str :=
  lit "It seems " ++ dotfile_path ++ lit " is not handled by dotmgr." ++ [LF]
  ++ lit "You can add it with `dotmgr -A " ++ dotfile_path ++ lit "`.".

(** What [add] prints, when verbose, for a home instance that is a link. *)
Definition already_managed (home : str) : str :=
  lit "File " ++ home
  ++ lit " is a symlink. It seems it is already managed. \o/".

Definition link (m : Manager) (dotfile_path : str) : M unit :=
  home <- get HOME ;;
  let link_path := home_path home dotfile_path in
  e <- exists_ link_path ;;
  if e then ret tt
  else
    let dest_path := stage_path m dotfile_path in
    print (lit "Creating symlink " ++ link_path ++ lit " -> " ++ dest_path) ;;
    makedirs (dirname link_path) ;;
    symlink dest_path link_path.

Definition generalize (m : Manager) (dotfile_path : str) (commit : bool)
  (message : option str) : M unit :=
  print (lit "Generalizing " ++ dotfile_path) ;;
  specific_content <-
    try_except FileNotFoundError
      (c <- open_readlines (stage_path m dotfile_path) ;; ret (Some c))
      (print (not_handled dotfile_path) ;; ret None) ;;
  match specific_content with
  | None | Some [] => ret tt
  | Some content =>
      makedirs (repo_path m (dirname dotfile_path)) ;;
      generic_dotfile <- open_w (repo_path m dotfile_path) ;;
      run_filter (generalize_filter_and_write m content) generic_dotfile ;;
      if commit
      then repo_update (dotfile_repository m) dotfile_path message
      else ret tt
  end.

Definition specialize (m : Manager) (dotfile_path : str) (link_ : bool)
  : M unit :=
  print (lit "Specializing " ++ dotfile_path) ;;
  generic_content <- open_readlines (repo_path m dotfile_path) ;;
  match generic_content with
  | [] => ret tt
  | _ =>
      makedirs (stage_path m (dirname dotfile_path)) ;;
      specific_dotfile <- open_w (stage_path m dotfile_path) ;;
      run_filter (specialize_filter_and_write m generic_content)
        specific_dotfile ;;
      if link_ then link m dotfile_path else ret tt
  end.

Definition add (m : Manager) (dotfile_path : str) (commit : bool) : M unit :=
  h <- get HOME ;;
  let home := home_path h dotfile_path in
  l <- islink home ;;
  (if l
   then when (verbose m) (print (already_managed home)) ;;
        sys_exit
   else ret tt) ;;
  let stage := stage_path m dotfile_path in
  print (lit "Moving dotfile   " ++ home ++ lit " => " ++ stage) ;;
  move home stage ;;
  link m dotfile_path ;;
  generalize m dotfile_path false None ;;
  if commit then repo_add (dotfile_repository m) dotfile_path else ret tt.

Definition delete (m : Manager) (dotfile_path : str) (rm_repo commit : bool)
  : M unit :=
  print (lit "Removing " ++ dotfile_path ++ lit " and its symlink") ;;
  h <- get HOME ;;
  try_except FileNotFoundError
    (remove (home_path h dotfile_path))
    (print (lit "Warning: Symlink for " ++ dotfile_path ++ lit " not found")) ;;
  try_except FileNotFoundError
    (remove (stage_path m dotfile_path))
    (print (lit "Warning: " ++ dotfile_path ++ lit " is not on stage")) ;;
  (if rm_repo || commit
   then
     print (lit "Removing " ++ dotfile_path ++ lit " from repository") ;;
     try_except FileNotFoundError
       (remove (repo_path m dotfile_path))
       (print (lit "Warning: " ++ dotfile_path
               ++ lit " is not in the repository"))
   else ret tt) ;;
  if commit then repo_remove (dotfile_repository m) dotfile_path else ret tt.

(** *** The text a filter leaves in the file it writes

    [Some y] when the operation writes [y]; [None] when the text read has no
    line and the operation returns without writing. *)
Definition filter_text (body : Manager -> str -> bool -> str -> turn)
  (m : Manager) (content : str) : outcome (option str) :=
  match readlines content with
  | [] => Return None
  | lines =>
      match fst (filter_and_write body m lines) with
      | Return chunks => Return (Some (concat chunks))
      | Exit => Exit
      | Raise e => Raise e
      end
  end.

Definition specialize_text := filter_text specialize_line.
Definition generalize_text := filter_text generalize_line.

(** ** Notions used in the statements *)

Definition nonspace (c : ascii) : bool := negb (isspace c).

(** [post] is empty or starts with a whitespace character. *)
Definition run_ends (post : str) : Prop :=
  post = [] \/ exists c post', post = c :: post' /\ isspace c = true.

(** A text without line feed and carriage return. *)
Definition no_newline (s : str) : bool :=
  forallb (fun c => negb (Ascii.eqb c LF) && negb (Ascii.eqb c CR)) s.

(** The lines a text file reads as: none is empty, each ends with the one
    line feed it holds, but the last, which may hold none. *)
Inductive lines_ok : list str -> Prop :=
| lines_nil : lines_ok []
| lines_last body :
    body <> [] -> no_newline body = true -> lines_ok [body]
| lines_cons body rest :
    no_newline body = true -> lines_ok rest ->
    lines_ok ((body ++ [LF]) :: rest).

(** A line that carries a directive of the file's comment sequence. *)
Definition is_directive (cseq line : str) : bool :=
  str_in (cseq ++ cseq ++ lit "only") line
  || str_in (cseq ++ cseq ++ lit "not") line
  || str_in (cseq ++ cseq ++ lit "end") line.

(** The tags a directive line lists: [line.split()[1:]]. *)
Definition section_tags_of (line : str) : list str :=
  tl (split_whitespace line).

(** Some tag of the host is listed. *)
Definition host_listed (m : Manager) (section_tags : list str) : bool :=
  truthy (filter (tag_in section_tags) (_tags m)).

(** The mode a directive line leaves the filter in. *)
Definition suppresses (m : Manager) (cseq line : str) : bool :=
  (str_in (cseq ++ cseq ++ lit "only") line
   && negb (host_listed m (section_tags_of line)))
  || (str_in (cseq ++ cseq ++ lit "not") line
      && host_listed m (section_tags_of line)).

(** A line as it is or with the comment sequence before it. *)
Definition maybe_commented (cseq : str) (line out : str) : Prop :=
  out = line \/ out = cseq ++ line.

(** The end of a line that is left when the text up to and with the first
    occurrence of the comment sequence is taken off; nothing is left of a
    line without the comment sequence. *)
Definition stripped_end (cseq line piece : str) : Prop :=
  (exists a,
      line = a ++ cseq ++ piece
      /\ forall a' b', line = a' ++ cseq ++ b' -> length a <= length a')
  \/ (str_in cseq line = false /\ piece = []).

(** The pieces that go with the lines of a text, for a filter that starts
    inside a suppressed block or outside of one: a directive line goes
    whole and decides by itself whether the lines after it are in a
    suppressed block; any other line goes whole outside a suppressed block,
    and inside one only its stripped end goes. *)
Inductive line_ends (m : Manager) (cseq : str)
  : bool -> list str -> list str -> Prop :=
| ends_nil suppressed : line_ends m cseq suppressed [] []
| ends_directive suppressed line lines pieces :
    is_directive cseq line = true ->
    line_ends m cseq (suppresses m cseq line) lines pieces ->
    line_ends m cseq suppressed (line :: lines) (line :: pieces)
| ends_whole line lines pieces :
    is_directive cseq line = false ->
    line_ends m cseq false lines pieces ->
    line_ends m cseq false (line :: lines) (line :: pieces)
| ends_stripped line piece lines pieces :
    is_directive cseq line = false ->
    stripped_end cseq line piece ->
    line_ends m cseq true lines pieces ->
    line_ends m cseq true (line :: lines) (piece :: pieces).

(** A directive line as the files write it: the doubled comment sequence,
    the keyword, the listed tags, a line feed. *)
Definition directive_line (cseq : str) (kind : string) (tags : list string)
  : str :=
  cseq ++ cseq ++ lit kind
  ++ concat (map (fun t => lit " " ++ lit t) tags) ++ [LF].

(** The host a line of the tag configuration is for: the text before its
    first colon. *)
Definition host_of (line : str) : option str :=
  match partition (lit ":") line with
  | Some (host, _) => Some host
  | None => None
  end.

(** The tags field of such a line: the text after its first colon, up to
    the second colon if there is one. *)
Definition tags_field (line : str) : str :=
  match partition (lit ":") line with
  | Some (_, after) =>
      match partition (lit ":") after with
      | Some (field, _) => field
      | None => after
      end
  | None => []
  end.

(** The world after some more prints. *)
Definition printed_to (w : world) (ss : list str) : world :=
  {| files := files w; stdout := stdout w ++ ss;
     HOME := HOME w; hostname := hostname w |}.

(** ** Managers and file systems for the examples *)

(** Stage and repository under [/stage] and [/repo], a collaborator that
    does nothing. *)
Definition example_repository : Repository :=
  {| path := lit "/repo";
     repo_add := fun _ => ret tt;
     repo_remove := fun _ => ret tt;
     repo_update := fun _ _ => ret tt |}.

Definition example_manager (tags : list string) (verbose : bool) : Manager :=
  {| dotfile_repository := example_repository;
     dotfile_stage_path := lit "/stage";
     dotfile_tag_config_path := lit "/repo/tags.conf";
     verbose := verbose;
     _tags := map lit tags |}.

(** A file system with the repository's [a.txt]. *)
Definition example_world (a_txt : str) : world :=
  {| files := fun p =>
       if str_eqb p (lit "/repo/a.txt") then Some (File a_txt)
       else if str_eqb p (lit "/repo") then Some Dir
       else if str_eqb p (lit "/stage") then Some Dir
       else None;
     stdout := [];
     HOME := lit "/home/user";
     hostname := lit "laptop" |}.

(** A file system with a tag configuration, on a host with a given name. *)
Definition example_host (name : string) (tags_conf : str) : world :=
  {| files := fun p =>
       if str_eqb p (lit "/repo/tags.conf") then Some (File tags_conf)
       else None;
     stdout := [];
     HOME := lit "/home/user";
     hostname := lit name |}.

(** A file system in which the dotfile [.vimrc] is managed already: the
    home instance is a link to the stage instance. *)
Definition managed_world : world :=
  {| files := fun p =>
       if str_eqb p (lit "/home/user/.vimrc")
       then Some (Link (lit "/stage/.vimrc"))
       else if str_eqb p (lit "/stage/.vimrc")
       then Some (File (text ["set nocompatible"]))
       else if str_eqb p (lit "/stage") then Some Dir
       else if str_eqb p (lit "/repo") then Some Dir
       else None;
     stdout := [];
     HOME := lit "/home/user";
     hostname := lit "laptop" |}.

(** A file system for the dotfile [conf/a.txt]: its directories under the
    three roots, and what is stored at its repository, stage and home
    paths. *)
Definition conf_world (repo_file stage_file home_file : option node)
  : world :=
  {| files := fun p =>
       if str_eqb p (lit "/repo/conf/a.txt") then repo_file
       else if str_eqb p (lit "/stage/conf/a.txt") then stage_file
       else if str_eqb p (lit "/home/user/conf/a.txt") then home_file
       else if str_eqb p (lit "/repo/conf") then Some Dir
       else if str_eqb p (lit "/stage/conf") then Some Dir
       else if str_eqb p (lit "/home/user/conf") then Some Dir
       else if str_eqb p (lit "/repo") then Some Dir
       else if str_eqb p (lit "/stage") then Some Dir
       else if str_eqb p (lit "/home/user") then Some Dir
       else None;
     stdout := [];
     HOME := lit "/home/user";
     hostname := lit "laptop" |}.


(** ** The operations on all dotfiles

    The file system of this development does not list its entries:
    [os.listdir] and [shutil.rmtree] are taken as given.  The walks recurse
    into directories as deep as the directories nest; [depth] bounds the
    nesting, and a walk that reaches the bound has no result. *)

Definition D (A : Type) : Type := world -> option (outcome A * world).

Definition liftD {A} (c : M A) : D A := fun w => Some (c w).

Definition bindD {A B} (c : D A) (k : A -> D B) : D B :=
  fun w =>
    match c w with
    | Some (Return a, w') => k a w'
    | Some (Exit, w') => Some (Exit, w')
    | Some (Raise e, w') => Some (Raise e, w')
    | None => None
    end.

(** [for entry in entries: body(entry)] *)
Fixpoint for_each (entries : list str) (body : str -> D unit) : D unit :=
  match entries with
  | [] => liftD (ret tt)
  | entry :: rest => bindD (body entry) (fun _ => for_each rest body)
  end.

Section Walks.

Variable listdir : str -> M (list str).
Variable rmtree : str -> M unit.

Fixpoint _recurse_stage_directory (depth : nat) (m : Manager)
  (directory_path : str) (action : str -> M unit) : D unit :=
  match depth with
  | 0 => fun _ => None
  | S depth' =>
      bindD (liftD (listdir (stage_path m directory_path))) (fun entries =>
      for_each entries (fun entry =>
        let full_path := join directory_path entry in
        bindD (liftD (isdir (stage_path m full_path))) (fun d =>
        if d
        then _recurse_stage_directory depth' m full_path action
        else liftD (action full_path))))
  end.

Definition _perform_on_stage (depth : nat) (m : Manager)
  (action : str -> M unit) : D unit :=
  bindD (liftD (listdir (dotfile_stage_path m))) (fun entries =>
  for_each entries (fun entry =>
    bindD (liftD (isdir (stage_path m entry))) (fun d =>
    if d
    then _recurse_stage_directory depth m entry action
    else liftD (action entry)))).

Definition link_all (depth : nat) (m : Manager) : D unit :=
  _perform_on_stage depth m (link m).

Definition generalize_all (depth : nat) (m : Manager) (commit : bool)
  : D unit :=
  bindD (liftD (print (lit "Generalizing all dotfiles"))) (fun _ =>
  _perform_on_stage depth m (fun p => generalize m p commit None)).

Definition delete_all (depth : nat) (m : Manager) : D unit :=
  bindD (liftD (print (lit "Cleaning"))) (fun _ =>
  bindD (_perform_on_stage depth m (fun p => delete m p false false))
    (fun _ =>
  liftD (rmtree (dotfile_stage_path m)))).

Fixpoint _specialize_directory (depth : nat) (m : Manager)
  (directory_path : str) (link_ : bool) : D unit :=
  match depth with
  | 0 => fun _ => None
  | S depth' =>
      bindD (liftD (listdir (repo_path m directory_path))) (fun entries =>
      for_each entries (fun entry =>
        if str_eqb entry (lit ".git") then liftD (ret tt)
        else
          let full_path := join directory_path entry in
          bindD (liftD (isdir (repo_path m full_path))) (fun d =>
          if d
          then _specialize_directory depth' m full_path link_
          else liftD (specialize m full_path link_))))
  end.

Definition specialize_all (depth : nat) (m : Manager) (link_ : bool)
  : D unit :=
  bindD (liftD (print (lit "Specializing all dotfiles"))) (fun _ =>
  bindD (liftD (listdir (path (dotfile_repository m)))) (fun entries =>
  bindD
    (for_each entries (fun entry =>
       bindD (liftD (isdir (join (path (dotfile_repository m)) entry)))
         (fun d =>
       if d
       then
         if str_eqb (repo_path m entry) (dotfile_stage_path m)
            || str_eqb entry (lit ".git")
         then liftD (ret tt)
         else _specialize_directory depth m entry link_
       else
         if str_eqb (repo_path m entry) (dotfile_tag_config_path m)
         then liftD (ret tt)
         else liftD (specialize m entry link_))))
    (fun _ =>
  if link_ then link_all depth m else liftD (ret tt)))).

End Walks.

(** ** Directory trees, for the statements about the walks *)

(** A file, or a directory with its entries in the order they are
    listed. *)
#[warnings="-register-all"]
Inductive tree : Type :=
| Leaf
| Node (entries : list (str * tree)).

Fixpoint tree_depth (t : tree) : nat :=
  match t with
  | Leaf => 0
  | Node es => S (fold_right (fun e d => Nat.max (tree_depth (snd e)) d) 0 es)
  end.

(** The files of the tree at the relative path [rel], depth first in
    listing order, each under the relative path joined from the names on
    the way to it; entries whose name is to be skipped are left out with
    all below them. *)
Fixpoint files_below (skip : str -> bool) (rel : str) (t : tree) : list str :=
  match t with
  | Leaf => [rel]
  | Node es =>
      flat_map (fun e => if skip (fst e) then []
                         else files_below skip (join rel (fst e)) (snd e)) es
  end.

(** The file system shows the tree at [rel]: a path is a directory or not
    as the tree says, and a directory lists the names of its entries.
    About an entry that is skipped nothing is said. *)
#[warnings="-register-all"]
Inductive shows (listdir : str -> M (list str)) (abs : str -> str)
  (skip : str -> bool) (w : world) : str -> tree -> Prop :=
| shows_file rel :
    fst (isdir (abs rel) w) = Return false ->
    shows listdir abs skip w rel Leaf
| shows_dir rel es :
    fst (isdir (abs rel) w) = Return true ->
    listdir (abs rel) w = (Return (map fst es), w) ->
    Forall (fun e => skip (fst e) = true
                     \/ shows listdir abs skip w (join rel (fst e)) (snd e))
      es ->
    shows listdir abs skip w rel (Node es).

(** The actions on the paths of a list, one after the other. *)
Fixpoint run_each (action : str -> M unit) (paths : list str) : M unit :=
  match paths with
  | [] => ret tt
  | p :: rest => action p ;; run_each action rest
  end.

(** The walk that the two recursions share: a directory is listed, skipped
    names are passed over, directories are walked and files acted on. *)
Fixpoint walk_directory (listdir : str -> M (list str)) (abs : str -> str)
  (skip : str -> bool) (action : str -> M unit) (depth : nat)
  (directory_path : str) : D unit :=
  match depth with
  | 0 => fun _ => None
  | S depth' =>
      bindD (liftD (listdir (abs directory_path))) (fun entries =>
      for_each entries (fun entry =>
        if skip entry then liftD (ret tt)
        else
          let full_path := join directory_path entry in
          bindD (liftD (isdir (abs full_path))) (fun d =>
          if d
          then walk_directory listdir abs skip action depth' full_path
          else liftD (action full_path))))
  end.

(** The files that [specialize_all] takes from the entries of the
    repository root: not the stage directory, not a directory [.git], not
    the tag configuration; below the root, nothing named [.git]. *)
Definition specialized_files (m : Manager) (es : list (str * tree))
  : list str :=
  flat_map
    (fun e =>
       match snd e with
       | Leaf =>
           if str_eqb (repo_path m (fst e)) (dotfile_tag_config_path m)
           then []
           else [fst e]
       | Node _ =>
           if str_eqb (repo_path m (fst e)) (dotfile_stage_path m)
              || str_eqb (fst e) (lit ".git")
           then []
           else files_below (fun n => str_eqb n (lit ".git")) (fst e) (snd e)
       end) es.

(** A listing for the examples: the stage holds [a], the directory [d]
    with [b] and the directory [e] with [c]. *)
Definition example_listdir (p : str) : M (list str) :=
  if str_eqb p (lit "/stage") then ret [lit "a"; lit "d"]
  else if str_eqb p (lit "/stage/d") then ret [lit "b"; lit "e"]
  else if str_eqb p (lit "/stage/d/e") then ret [lit "c"]
  else raise FileNotFoundError.

Definition example_stage_tree : list (str * tree) :=
  [(lit "a", Leaf);
   (lit "d", Node [(lit "b", Leaf); (lit "e", Node [(lit "c", Leaf)])])].

Definition example_stage_world : world :=
  {| files := fun p =>
       if str_eqb p (lit "/stage/d") then Some Dir
       else if str_eqb p (lit "/stage/d/e") then Some Dir
       else if str_eqb p (lit "/stage") then Some Dir
       else if str_eqb p (lit "/stage/a") then Some (File (text ["# a"]))
       else if str_eqb p (lit "/stage/d/b") then Some (File (text ["# b"]))
       else if str_eqb p (lit "/stage/d/e/c") then Some (File (text ["# c"]))
       else None;
     stdout := [];
     HOME := lit "/home/user";
     hostname := lit "laptop" |}.

(** A repository that holds its own stage, for the examples: at the root
    the directory [.git], the stage, the tag configuration, the dotfile [a]
    and the directory [d], which holds a file [.git] and the dotfile
    [b]. *)
Definition nested_manager : Manager :=
  {| dotfile_repository := example_repository;
     dotfile_stage_path := lit "/repo/stage";
     dotfile_tag_config_path := lit "/repo/tags.conf";
     verbose := false;
     _tags := [lit "home"] |}.

Definition nested_listdir (p : str) : M (list str) :=
  if str_eqb p (lit "/repo")
  then ret [lit ".git"; lit "stage"; lit "tags.conf"; lit "a"; lit "d"]
  else if str_eqb p (lit "/repo/d") then ret [lit ".git"; lit "b"]
  else raise FileNotFoundError.

Definition nested_tree : list (str * tree) :=
  [(lit ".git", Node []);
   (lit "stage", Node []);
   (lit "tags.conf", Leaf);
   (lit "a", Leaf);
   (lit "d", Node [(lit ".git", Leaf); (lit "b", Leaf)])].

Definition nested_world : world :=
  {| files := fun p =>
       if str_eqb p (lit "/repo") then Some Dir
       else if str_eqb p (lit "/repo/.git") then Some Dir
       else if str_eqb p (lit "/repo/stage") then Some Dir
       else if str_eqb p (lit "/repo/d") then Some Dir
       else if str_eqb p (lit "/repo/tags.conf")
       then Some (File (text ["laptop:home"]))
       else if str_eqb p (lit "/repo/a")
       then Some (File (text ["# a"; "##only work"; "x"; "##end"]))
       else if str_eqb p (lit "/repo/d/.git")
       then Some (File (text ["gitdir: ../.git/modules/d"]))
       else if str_eqb p (lit "/repo/d/b")
       then Some (File (text ["# b"]))
       else None;
     stdout := [];
     HOME := lit "/home/user";
     hostname := lit "laptop" |}.

(** What the walk of the example keeps: the repository as it is, the stage
    paths free or holding what specialize leaves there. *)
Definition nested_kept (w : world) : Prop :=
  files w (lit "/repo/.git") = Some Dir
  /\ files w (lit "/repo/stage") = Some Dir
  /\ files w (lit "/repo/d") = Some Dir
  /\ files w (lit "/repo/tags.conf") = Some (File (text ["laptop:home"]))
  /\ files w (lit "/repo/a")
     = Some (File (text ["# a"; "##only work"; "x"; "##end"]))
  /\ files w (lit "/repo/d/b") = Some (File (text ["# b"]))
  /\ (files w (lit "/repo/stage/") = None
      \/ files w (lit "/repo/stage/") = Some Dir)
  /\ (files w (lit "/repo/stage/d") = None
      \/ files w (lit "/repo/stage/d") = Some Dir)
  /\ (files w (lit "/repo/stage/a") = None
      \/ exists old, files w (lit "/repo/stage/a") = Some (File old))
  /\ (files w (lit "/repo/stage/d/b") = None
      \/ exists old, files w (lit "/repo/stage/d/b") = Some (File old)).

(** * Properties *)

(** ** Strings *)

Lemma startswith_app (p r : str) : startswith p (p ++ r) = true.
Proof.
  induction p as [|a p IH]; simpl; [reflexivity|].
  now rewrite Ascii.eqb_refl.
Qed.

Lemma startswith_inv (p s : str) :
  startswith p s = true -> exists r, s = p ++ r.
Proof.
  revert s; induction p as [|a p IH]; intros s H.
  - now exists s.
  - destruct s as [|b s]; simpl in H; [discriminate|].
    apply andb_true_iff in H as [Hab Hp].
    apply Ascii.eqb_eq in Hab; subst b.
    destruct (IH _ Hp) as [r ->]. now exists r.
Qed.

Lemma str_in_eq (sub s : str) :
  str_in sub s
  = startswith sub s || match s with [] => false | _ :: s' => str_in sub s' end.
Proof. destruct s; reflexivity. Qed.

Lemma partition_eq (sep s : str) :
  partition sep s
  = if startswith sep s then Some ([], skipn (length sep) s)
    else match s with
         | [] => None
         | c :: s' =>
             match partition sep s' with
             | Some (a, b) => Some (c :: a, b)
             | None => None
             end
         end.
Proof. destruct s; reflexivity. Qed.

Lemma str_in_intro (sub a b : str) : str_in sub (a ++ sub ++ b) = true.
Proof.
  induction a as [|c a IH]; simpl.
  - rewrite str_in_eq, startswith_app. reflexivity.
  - rewrite IH. apply orb_true_r.
Qed.

Lemma str_in_inv (sub s : str) :
  str_in sub s = true -> exists a b, s = a ++ sub ++ b.
Proof.
  induction s as [|c s IH]; simpl; intros H.
  - rewrite orb_false_r in H. apply startswith_inv in H as [r Hr].
    now exists [], r.
  - apply orb_true_iff in H as [H|H].
    + apply startswith_inv in H as [r Hr]. now exists [], r.
    + destruct (IH H) as (a & b & ->). now exists (c :: a), b.
Qed.

(** A text that contains [sub] inside one of its parts contains [sub]. *)
Lemma str_in_within (sub a s b : str) :
  str_in sub s = true -> str_in sub (a ++ s ++ b) = true.
Proof.
  intros H. apply str_in_inv in H as (x & y & ->).
  replace (a ++ (x ++ sub ++ y) ++ b) with ((a ++ x) ++ sub ++ (y ++ b))
    by now rewrite <- !app_assoc.
  apply str_in_intro.
Qed.

Lemma str_in_suffix (sub a s : str) :
  str_in sub (a ++ s) = false -> str_in sub s = false.
Proof.
  intros H. destruct (str_in sub s) eqn:E; [|reflexivity].
  apply (str_in_within sub a s []) in E. rewrite app_nil_r in E. congruence.
Qed.

Lemma partition_prefix (sep r : str) : partition sep (sep ++ r) = Some ([], r).
Proof.
  rewrite partition_eq, startswith_app.
  now rewrite skipn_app, skipn_all, Nat.sub_diag.
Qed.

Lemma partition_some (sep s a b : str) :
  partition sep s = Some (a, b) -> s = a ++ sep ++ b.
Proof.
  revert a; induction s as [|c s IH]; intros a; simpl.
  - destruct (startswith sep []) eqn:E; [|discriminate].
    intros [= <- <-]. apply startswith_inv in E as [r Hr].
    symmetry in Hr. apply app_eq_nil in Hr as [-> ->]. reflexivity.
  - destruct (startswith sep (c :: s)) eqn:E.
    + intros [= <- <-]. apply startswith_inv in E as [r Hr]. rewrite Hr.
      now rewrite skipn_app, skipn_all, Nat.sub_diag.
    + destruct (partition sep s) as [[a' b']|]; [|discriminate].
      intros [= <- <-]. simpl. f_equal. now apply IH.
Qed.

Lemma partition_none (sep s : str) :
  partition sep s = None <-> str_in sep s = false.
Proof.
  induction s as [|c s IH]; simpl.
  - destruct (startswith sep []); simpl; split; congruence.
  - destruct (startswith sep (c :: s)); simpl; [split; congruence|].
    destruct (partition sep s) as [[a b]|]; rewrite <- IH; split; congruence.
Qed.

(** [partition] cuts at the first occurrence. *)
Lemma partition_first (sep s a b : str) :
  partition sep s = Some (a, b) ->
  forall a' b', s = a' ++ sep ++ b' -> length a <= length a'.
Proof.
  revert a; induction s as [|c s IH]; intros a; simpl.
  - destruct (startswith sep []); [|discriminate].
    intros [= <- <-] a' b' _. simpl. lia.
  - destruct (startswith sep (c :: s)) eqn:E.
    + intros [= <- <-] a' b' _. simpl. lia.
    + destruct (partition sep s) as [[a0 b0]|] eqn:P; [|discriminate].
      intros [= <- <-] a' b' H. destruct a' as [|c' a'].
      * simpl in H. rewrite H, startswith_app in E. discriminate.
      * simpl in H. injection H as _ H. simpl.
        apply le_n_S. eapply IH; eauto.
Qed.

Lemma partition_at_first (sep a b : str) :
  (forall a' b', a ++ sep ++ b = a' ++ sep ++ b' -> length a <= length a') ->
  partition sep (a ++ sep ++ b) = Some (a, b).
Proof.
  intros Hmin.
  destruct (partition sep (a ++ sep ++ b)) as [[a0 b0]|] eqn:P.
  - pose proof (partition_some _ _ _ _ P) as E.
    pose proof (partition_first _ _ _ _ P _ _ eq_refl) as L1.
    pose proof (Hmin _ _ E) as L2.
    assert (La : length a0 = length a) by lia.
    assert (a = a0).
    { apply (f_equal (firstn (length a))) in E.
      rewrite firstn_app, firstn_all, Nat.sub_diag, firstn_O, app_nil_r in E.
      rewrite <- La, firstn_app, firstn_all, Nat.sub_diag, firstn_O,
        app_nil_r in E. exact E. }
    subst a0. apply app_inv_head in E. apply app_inv_head in E. now subst.
  - apply partition_none in P. now rewrite str_in_intro in P.
Qed.

Lemma split_from_nonempty (n : nat) (sep s : str) : split_from n sep s <> [].
Proof.
  destruct n; simpl; destruct (partition sep s) as [[a b]|]; discriminate.
Qed.

Lemma str_join_cons (sep p : str) (rest : list str) :
  rest <> [] -> str_join sep (p :: rest) = p ++ sep ++ str_join sep rest.
Proof. destruct rest; [congruence|reflexivity]. Qed.

(** Joining the slices of a split gives the text back. *)
Lemma join_split_from (sep : str) (n : nat) (s : str) :
  sep <> [] -> length s <= n -> str_join sep (split_from n sep s) = s.
Proof.
  intros Hsep. revert s; induction n as [|n IH]; intros s Hn.
  - destruct s; [|simpl in Hn; lia]. simpl.
    destruct sep; [congruence|reflexivity].
  - simpl. destruct (partition sep s) as [[a b]|] eqn:P; [|reflexivity].
    pose proof (partition_some _ _ _ _ P) as E.
    rewrite str_join_cons by apply split_from_nonempty.
    rewrite IH; [now symmetry|].
    subst s. rewrite !length_app in Hn.
    destruct sep; [congruence|]. simpl in Hn. lia.
Qed.

(** What the strip step of [generalize] writes: the text after the first
    occurrence of the separator, or nothing. *)
Lemma join_tl_split (sep s : str) :
  sep <> [] ->
  str_join sep (tl (str_split sep s))
  = match partition sep s with
    | Some (_, b) => b
    | None => []
    end.
Proof.
  intros Hsep. unfold str_split.
  destruct s as [|c s].
  - simpl. destruct sep; [congruence|reflexivity].
  - cbn [length split_from].
    destruct (partition sep (c :: s)) as [[a b]|] eqn:P; [|reflexivity].
    cbn [tl]. apply join_split_from; [assumption|].
    apply partition_some in P. apply (f_equal (@length _)) in P.
    rewrite !length_app in P. simpl in P.
    destruct sep; [congruence|]. simpl in P. lia.
Qed.

(** ** Runs of non-whitespace characters *)

Lemma runs_from_run (run cur post : str) :
  forallb nonspace run = true -> run_ends post -> cur ++ run <> [] ->
  exists rest, runs_from cur (run ++ post) = (cur ++ run) :: rest.
Proof.
  revert cur; induction run as [|c run IH]; intros cur Hrun Hpost Hne.
  - rewrite app_nil_r in *. simpl.
    destruct Hpost as [->|(c & post' & -> & Hc)]; simpl.
    + destruct cur; [congruence|eauto].
    + rewrite Hc. destruct cur; [congruence|eauto].
  - simpl in Hrun. apply andb_true_iff in Hrun as [Hc Hrun].
    unfold nonspace in Hc. apply negb_true_iff in Hc. simpl. rewrite Hc.
    destruct (IH (cur ++ [c]) Hrun Hpost) as [rest Hrest].
    + destruct cur; discriminate.
    + exists rest. rewrite Hrest. now rewrite <- app_assoc.
Qed.

Lemma runs_from_skip (pre s : str) :
  forallb isspace pre = true -> runs_from [] (pre ++ s) = runs_from [] s.
Proof.
  induction pre as [|c pre IH]; simpl; [reflexivity|].
  intros H. apply andb_true_iff in H as [-> H]. auto.
Qed.

Lemma runs_from_all_space (s : str) :
  forallb isspace s = true -> runs_from [] s = [].
Proof.
  intros H. rewrite <- (app_nil_r s). now rewrite runs_from_skip.
Qed.

Lemma run_split (l : str) :
  exists run post,
    l = run ++ post /\ forallb nonspace run = true /\ run_ends post.
Proof.
  induction l as [|c l (run & post & -> & Hrun & Hpost)].
  - exists [], []. repeat split. now left.
  - destruct (isspace c) eqn:Hc.
    + exists [], (c :: run ++ post). repeat split. right. eauto.
    + exists (c :: run), post. repeat split; [|assumption].
      simpl. unfold nonspace at 1. now rewrite Hc.
Qed.

(** A line with a non-whitespace character has a first run. *)
Lemma first_run_exists (line : str) :
  existsb nonspace line = true ->
  exists pre run post,
    line = pre ++ run ++ post /\ forallb isspace pre = true /\
    run <> [] /\ forallb nonspace run = true /\ run_ends post.
Proof.
  induction line as [|c line IH]; simpl; [discriminate|].
  intros H. destruct (isspace c) eqn:Hc.
  - unfold nonspace at 1 in H. rewrite Hc in H. simpl in H.
    destruct (IH H) as (pre & run & post & -> & Hpre & Hne & Hrun & Hpost).
    exists (c :: pre), run, post. simpl. rewrite Hc. auto.
  - destruct (run_split line) as (run & post & -> & Hrun & Hpost).
    exists [], (c :: run), post. simpl. unfold nonspace at 1. rewrite Hc.
    repeat split; auto. discriminate.
Qed.

Lemma runs_from_nonspace (s cur : str) :
  forallb nonspace cur = true ->
  Forall (fun r => r <> [] /\ forallb nonspace r = true) (runs_from cur s).
Proof.
  revert cur; induction s as [|c s IH]; intros cur Hcur; simpl.
  - destruct cur; constructor; auto. split; [discriminate|assumption].
  - destruct (isspace c) eqn:Hc.
    + destruct cur; [now apply IH|].
      constructor; [split; [discriminate|assumption]|now apply IH].
    + apply IH. rewrite forallb_app, Hcur. simpl.
      unfold nonspace. now rewrite Hc.
Qed.

Lemma identify_return (m : Manager) (line cseq : str) :
  fst (_identify_comment_sequence m line) = Return cseq ->
  cseq <> [] /\ forallb nonspace cseq = true.
Proof.
  unfold _identify_comment_sequence, findall_nonspace.
  pose proof (runs_from_nonspace line [] eq_refl) as F.
  destruct (runs_from [] line) as [|seq rest]; simpl; [discriminate|].
  intros [= <-]. now inversion F.
Qed.

(** C6: on a line with a non-whitespace character the detector returns the
    first maximal run of non-whitespace characters (the run that follows
    the leading whitespace and ends at the next whitespace character or at
    the end of the line), and such a run exists; on a line of whitespace
    only, the empty line included, it prints its message and exits the
    process instead of returning. *)
Theorem identify_comment_sequence_first_run (m : Manager) (line : str) :
  (forall pre run post,
      line = pre ++ run ++ post -> forallb isspace pre = true ->
      run <> [] -> forallb nonspace run = true -> run_ends post ->
      fst (_identify_comment_sequence m line) = Return run)
  /\ (existsb nonspace line = true ->
      exists pre run post,
        line = pre ++ run ++ post /\ forallb isspace pre = true /\
        run <> [] /\ forallb nonspace run = true /\ run_ends post)
  /\ (forallb isspace line = true ->
      _identify_comment_sequence m line
      = (Exit, [lit "Could not identify a comment character!"])).
Proof.
  split; [|split].
  - intros pre run post -> Hpre Hne Hrun Hpost.
    unfold _identify_comment_sequence, findall_nonspace.
    rewrite runs_from_skip by assumption.
    destruct (runs_from_run run [] post Hrun Hpost Hne) as [rest ->].
    reflexivity.
  - apply first_run_exists.
  - intros H. unfold _identify_comment_sequence, findall_nonspace.
    now rewrite runs_from_all_space.
Qed.

Lemma identify_comment_sequence_first_run_witness :
  fst (_identify_comment_sequence (example_manager ["home"] false)
         (lit "  # comment" ++ [LF]))
  = Return (lit "#")
  /\ _identify_comment_sequence (example_manager ["home"] false)
       (lit "  " ++ [LF])
     = (Exit, [lit "Could not identify a comment character!"]).
Proof.
  split.
  - apply (proj1 (identify_comment_sequence_first_run
                    (example_manager ["home"] false)
                    (lit "  # comment" ++ [LF]))
             (lit "  ") (lit "#") (lit " comment" ++ [LF]));
      try reflexivity; [discriminate|].
    right. exists " "%char, (lit "comment" ++ [LF]). split; reflexivity.
  - apply (proj2 (proj2 (identify_comment_sequence_first_run
                           (example_manager ["home"] false)
                           (lit "  " ++ [LF])))).
    reflexivity.
Defined.

(** ** One line of a filter *)

Lemma str_in_marker (cseq kw line : str) :
  str_in (cseq ++ cseq ++ kw) line = true -> str_in cseq line = true.
Proof.
  intros H. apply str_in_inv in H as (a & b & ->).
  replace (a ++ (cseq ++ cseq ++ kw) ++ b)
    with (a ++ cseq ++ (cseq ++ kw ++ b)) by now rewrite <- !app_assoc.
  apply str_in_intro.
Qed.

Lemma not_directive_without_cseq (cseq line : str) :
  str_in cseq line = false -> is_directive cseq line = false.
Proof.
  intros H. unfold is_directive.
  destruct (str_in (cseq ++ cseq ++ lit "only") line) eqn:E1;
    [apply str_in_marker in E1; congruence|].
  destruct (str_in (cseq ++ cseq ++ lit "not") line) eqn:E2;
    [apply str_in_marker in E2; congruence|].
  destruct (str_in (cseq ++ cseq ++ lit "end") line) eqn:E3;
    [apply str_in_marker in E3; congruence|].
  reflexivity.
Qed.

Lemma is_directive_false (cseq line : str) :
  is_directive cseq line = false ->
  str_in (cseq ++ cseq ++ lit "only") line = false
  /\ str_in (cseq ++ cseq ++ lit "not") line = false
  /\ str_in (cseq ++ cseq ++ lit "end") line = false.
Proof.
  unfold is_directive. intros H.
  apply orb_false_iff in H as [H H3]. apply orb_false_iff in H as [H1 H2].
  auto.
Qed.

Lemma specialize_line_plain (m : Manager) (cseq line : str) (s : bool) :
  is_directive cseq line = false ->
  specialize_line m cseq s line
  = Turn s (if s then cseq ++ line else line) [].
Proof.
  intros H. apply is_directive_false in H as (H1 & H2 & H3).
  unfold specialize_line. rewrite H1, H2, H3. simpl. now destruct s.
Qed.

Lemma generalize_line_plain (m : Manager) (cseq line : str) (s : bool) :
  is_directive cseq line = false ->
  generalize_line m cseq s line
  = Turn s (if s then str_join cseq (tl (str_split cseq line)) else line) [].
Proof.
  intros H. apply is_directive_false in H as (H1 & H2 & H3).
  unfold generalize_line. rewrite H1, H2, H3. simpl. now destruct s.
Qed.

(** C10: in strip mode a line without the comment sequence is written as
    the empty string, and of a line that contains the comment sequence and
    carries no directive only the text after the first occurrence of the
    comment sequence is written; strip mode stays on. *)
Theorem generalize_strip_drops (m : Manager) (cseq line : str) :
  cseq <> [] ->
  (str_in cseq line = false ->
   generalize_line m cseq true line = Turn true [] [])
  /\ (forall a b,
         line = a ++ cseq ++ b ->
         (forall a' b', line = a' ++ cseq ++ b' -> length a <= length a') ->
         is_directive cseq line = false ->
         generalize_line m cseq true line = Turn true b []).
Proof.
  intros Hc. split.
  - intros H. rewrite generalize_line_plain
      by now apply not_directive_without_cseq.
    rewrite join_tl_split by assumption.
    apply partition_none in H. now rewrite H.
  - intros a b -> Hmin Hd. rewrite generalize_line_plain by assumption.
    rewrite join_tl_split by assumption.
    now rewrite partition_at_first.
Qed.

Lemma generalize_strip_drops_witness :
  generalize_line (example_manager ["home"] false) (lit "#") true
    (lit "plain line" ++ [LF])
  = Turn true [] []
  /\ generalize_line (example_manager ["home"] false) (lit "#") true
       (lit "set x # set y # z" ++ [LF])
     = Turn true (lit " set y # z" ++ [LF]) [].
Proof.
  split.
  - apply (proj1 (generalize_strip_drops (example_manager ["home"] false)
                    (lit "#") (lit "plain line" ++ [LF])
                    ltac:(discriminate))).
    reflexivity.
  - apply (proj2 (generalize_strip_drops (example_manager ["home"] false)
                    (lit "#") (lit "set x # set y # z" ++ [LF])
                    ltac:(discriminate))
             (lit "set x ") (lit " set y # z" ++ [LF])).
    + reflexivity.
    + intros a' b' H.
      destruct (le_lt_dec (length (lit "set x ")) (length a')) as [L|L];
        [exact L|exfalso].
      do 6 (destruct a' as [|? a']; [discriminate H|
            simpl in H; injection H as <- H]).
      simpl in L. lia.
    + reflexivity.
Defined.

(** ** The directives *)

Lemma host_listed_iff (m : Manager) (section_tags : list str) :
  host_listed m section_tags = true
  <-> exists tag, In tag (_tags m) /\ In tag section_tags.
Proof.
  unfold host_listed. split.
  - destruct (filter (tag_in section_tags) (_tags m)) as [|tag l] eqn:E;
      [discriminate|]. intros _.
    assert (H : In tag (filter (tag_in section_tags) (_tags m)))
      by (rewrite E; now left).
    apply filter_In in H as [H1 H2]. exists tag. split; [assumption|].
    unfold tag_in in H2. apply existsb_exists in H2 as (x & Hx & Hxe).
    unfold str_eqb in Hxe. destruct (list_eq_dec ascii_dec tag x);
      [now subst|discriminate].
  - intros (tag & H1 & H2).
    assert (H : In tag (filter (tag_in section_tags) (_tags m))).
    { apply filter_In. split; [assumption|]. unfold tag_in.
      apply existsb_exists. exists tag. split; [assumption|].
      unfold str_eqb. now destruct (list_eq_dec ascii_dec tag tag). }
    now destruct (filter (tag_in section_tags) (_tags m)).
Qed.

Lemma specialize_line_only (m : Manager) (cseq line : str) (s : bool) :
  str_in (cseq ++ cseq ++ lit "only") line = true ->
  str_in (cseq ++ cseq ++ lit "not") line = false ->
  mode (specialize_line m cseq s line)
  = negb (host_listed m (section_tags_of line))
  /\ written (specialize_line m cseq s line) = line.
Proof.
  intros H1 H2. unfold specialize_line, host_listed, section_tags_of.
  rewrite H1, H2. simpl.
  destruct (truthy _); simpl; [|auto].
  destruct (str_in (cseq ++ cseq ++ lit "end") line); auto.
Qed.

Lemma specialize_line_not (m : Manager) (cseq line : str) (s : bool) :
  str_in (cseq ++ cseq ++ lit "not") line = true ->
  str_in (cseq ++ cseq ++ lit "only") line = false ->
  mode (specialize_line m cseq s line) = host_listed m (section_tags_of line)
  /\ written (specialize_line m cseq s line) = line.
Proof.
  intros H1 H2. unfold specialize_line, host_listed, section_tags_of.
  rewrite H1, H2. simpl.
  destruct (truthy _); simpl; [auto|].
  destruct (str_in (cseq ++ cseq ++ lit "end") line); auto.
Qed.

(** C4, as the code has it: for an [only] line and a [not] line that list
    the same tags, neither of which carries the other's marker as well, the
    [not] line turns suppression on exactly when a tag of the host is
    listed, the [only] line exactly when none is; so the one suppresses
    exactly when the other does not. *)
Theorem not_complements_only (m : Manager) (cseq only_line not_line : str)
  (s1 s2 : bool) :
  str_in (cseq ++ cseq ++ lit "only") only_line = true ->
  str_in (cseq ++ cseq ++ lit "not") only_line = false ->
  str_in (cseq ++ cseq ++ lit "not") not_line = true ->
  str_in (cseq ++ cseq ++ lit "only") not_line = false ->
  section_tags_of only_line = section_tags_of not_line ->
  (mode (specialize_line m cseq s2 not_line) = true
   <-> exists tag, In tag (_tags m) /\ In tag (section_tags_of not_line))
  /\ (mode (specialize_line m cseq s1 only_line) = true
      <-> ~ exists tag, In tag (_tags m) /\ In tag (section_tags_of not_line))
  /\ mode (specialize_line m cseq s2 not_line)
     = negb (mode (specialize_line m cseq s1 only_line)).
Proof.
  intros Ho1 Ho2 Hn1 Hn2 Htags.
  destruct (specialize_line_only m cseq only_line s1 Ho1 Ho2) as [-> _].
  destruct (specialize_line_not m cseq not_line s2 Hn1 Hn2) as [-> _].
  rewrite Htags, <- host_listed_iff.
  destruct (host_listed m (section_tags_of not_line)); simpl;
    repeat split; auto; try discriminate; congruence.
Qed.

Lemma not_complements_only_witness :
  mode (specialize_line (example_manager ["home"] false) (lit "#") false
          (directive_line (lit "#") "not" ["work"; "home"]))
  = negb (mode (specialize_line (example_manager ["home"] false) (lit "#")
                  false (directive_line (lit "#") "only" ["work"; "home"]))).
Proof.
  apply (not_complements_only (example_manager ["home"] false) (lit "#")
           (directive_line (lit "#") "only" ["work"; "home"])
           (directive_line (lit "#") "not" ["work"; "home"]) false false);
    reflexivity.
Defined.

(** C4 as stated fails for a tag that itself holds a directive marker: with
    the comment sequence [#] and the host tag [##not], the line
    [##only ##not] lists a tag of the host and still turns suppression on,
    as the line [##not ##not] does. *)
Lemma not_complements_only_counterexample :
  let m := example_manager ["##not"] false in
  let only_line := directive_line (lit "#") "only" ["##not"] in
  let not_line := directive_line (lit "#") "not" ["##not"] in
  section_tags_of only_line = [lit "##not"]
  /\ section_tags_of not_line = [lit "##not"]
  /\ In (lit "##not") (_tags m)
  /\ mode (specialize_line m (lit "#") false only_line) = true
  /\ mode (specialize_line m (lit "#") false not_line)
     <> negb (mode (specialize_line m (lit "#") false only_line)).
Proof.
  cbv zeta. repeat split; try reflexivity; [now left|discriminate].
Qed.

(** ** The end-to-end example *)

(** C1 as stated fails: the lines [#only work] and [#end] of the example
    carry a single comment sequence and are no directives, so the text
    reaches the stage as it is. *)
Lemma specialize_example_counterexample :
  specialize_text (example_manager ["home"] false)
    (text ["# comment"; "line1"; "#only work"; "secretwork"; "#end"; "line2"])
  <> Return (Some (text ["# comment"; "line1"; "#only work"; "#secretwork";
                         "#end"; "line2"])).
Proof. vm_compute. discriminate. Qed.

(** C1, as the code has it: with the directives written with the doubled
    comment sequence, [##only work] and [##end], and the host tag [home],
    specialize writes the text with [secretwork] commented out once and
    every other line as it was, both as the text written and in the stage
    file of a file system that holds the repository file; the text of the
    specification's example, with its single [#], is written unchanged. *)
Theorem specialize_example :
  let m := example_manager ["home"] false in
  let generic :=
    text ["# comment"; "line1"; "##only work"; "secretwork"; "##end"; "line2"]
  in
  let specific :=
    text ["# comment"; "line1"; "##only work"; "#secretwork"; "##end"; "line2"]
  in
  let as_claimed :=
    text ["# comment"; "line1"; "#only work"; "secretwork"; "#end"; "line2"]
  in
  specialize_text m generic = Return (Some specific)
  /\ fst (specialize m (lit "a.txt") false (example_world generic))
     = Return tt
  /\ files (snd (specialize m (lit "a.txt") false (example_world generic)))
       (lit "/stage/a.txt")
     = Some (File specific)
  /\ specialize_text m as_claimed = Return (Some as_claimed).
Proof. cbv zeta. repeat split; vm_compute; reflexivity. Qed.

(** ** A block that specialize comments out and generalize does not restore *)

(** C3 fails on the code: a commented-out line that starts with [#end]
    becomes, with the comment sequence put before it, the directive
    [##end]; generalize then takes it for the end of the block, leaves it
    as it is and strips nothing from the lines after it. *)
Theorem only_block_not_restored :
  let m := example_manager ["home"] false in
  let generic :=
    text ["# dotfile"; "##only work"; "#end of the work settings";
          "secret"; "##end"] in
  let specific :=
    text ["# dotfile"; "##only work"; "##end of the work settings";
          "#secret"; "##end"] in
  specialize_text m generic = Return (Some specific)
  /\ generalize_text m specific = Return (Some specific)
  /\ specific <> generic.
Proof.
  cbv zeta. repeat split; try (vm_compute; reflexivity).
  vm_compute. discriminate.
Qed.

(** ** Lines written and read back *)

Lemma no_newline_app (a b : str) :
  no_newline (a ++ b) = no_newline a && no_newline b.
Proof. apply forallb_app. Qed.

Lemma nonspace_no_newline (s : str) :
  forallb nonspace s = true -> no_newline s = true.
Proof.
  induction s as [|c s IH]; simpl; [reflexivity|].
  intros H. apply andb_true_iff in H as [Hc Hs]. rewrite (IH Hs).
  unfold nonspace in Hc. apply negb_true_iff in Hc.
  destruct (Ascii.eqb c LF) eqn:E1;
    [apply Ascii.eqb_eq in E1; subst c; discriminate|].
  destruct (Ascii.eqb c CR) eqn:E2;
    [apply Ascii.eqb_eq in E2; subst c; discriminate|].
  reflexivity.
Qed.

Lemma universal_newlines_id (s : str) :
  no_newline s = true -> universal_newlines s = s.
Proof.
  induction s as [|c s IH]; simpl; [reflexivity|].
  intros H. apply andb_true_iff in H as [Hc Hs].
  apply andb_true_iff in Hc as [_ Hc]. apply negb_true_iff in Hc.
  rewrite Hc. now rewrite IH.
Qed.

Lemma universal_newlines_eq (c : ascii) (s : str) :
  Ascii.eqb c CR = false ->
  universal_newlines (c :: s) = c :: universal_newlines s.
Proof. intros H. simpl. now rewrite H. Qed.

Lemma universal_newlines_line (body rest : str) :
  no_newline body = true ->
  universal_newlines (body ++ LF :: rest)
  = body ++ LF :: universal_newlines rest.
Proof.
  induction body as [|c body IH]; intros H.
  - reflexivity.
  - simpl in H. apply andb_true_iff in H as [Hc Hs].
    apply andb_true_iff in Hc as [_ Hc]. apply negb_true_iff in Hc.
    cbn [app]. rewrite universal_newlines_eq by assumption.
    now rewrite IH.
Qed.

Lemma cut_lines_eq (c : ascii) (s : str) :
  cut_lines (c :: s)
  = if Ascii.eqb c LF then [c] :: cut_lines s
    else match cut_lines s with
         | [] => [[c]]
         | l :: ls => (c :: l) :: ls
         end.
Proof. reflexivity. Qed.

Lemma cut_lines_line (body rest : str) :
  no_newline body = true ->
  cut_lines (body ++ LF :: rest) = (body ++ [LF]) :: cut_lines rest.
Proof.
  induction body as [|c body IH]; intros H.
  - reflexivity.
  - simpl in H. apply andb_true_iff in H as [Hc Hs].
    apply andb_true_iff in Hc as [Hc _]. apply negb_true_iff in Hc.
    cbn [app]. rewrite cut_lines_eq, Hc, IH by assumption. reflexivity.
Qed.

Lemma cut_lines_body (body : str) :
  body <> [] -> no_newline body = true -> cut_lines body = [body].
Proof.
  induction body as [|c body IH]; intros Hne H; [congruence|].
  simpl in H. apply andb_true_iff in H as [Hc Hs].
  apply andb_true_iff in Hc as [Hc _]. apply negb_true_iff in Hc.
  rewrite cut_lines_eq, Hc. destruct body as [|d body]; [reflexivity|].
  rewrite IH by (assumption || discriminate). reflexivity.
Qed.

(** Reading back the pieces written, when they are the lines of a file. *)
Lemma readlines_concat (ls : list str) :
  lines_ok ls -> readlines (concat ls) = ls.
Proof.
  unfold readlines. induction 1 as [|body Hne Hb|body rest Hb Hrest IH].
  - reflexivity.
  - simpl. rewrite app_nil_r, universal_newlines_id by assumption.
    now apply cut_lines_body.
  - cbn [concat]. rewrite <- app_assoc. cbn [app].
    rewrite universal_newlines_line, cut_lines_line by assumption.
    now rewrite IH.
Qed.

Lemma universal_newlines_no_cr (s : str) :
  forallb (fun c => negb (Ascii.eqb c CR)) (universal_newlines s) = true.
Proof.
  assert (H : forall n s, length s <= n ->
    forallb (fun c => negb (Ascii.eqb c CR)) (universal_newlines s) = true).
  { clear s. induction n as [|n IH]; intros s Hn.
    - destruct s; [reflexivity|simpl in Hn; lia].
    - destruct s as [|c s]; [reflexivity|]. simpl in Hn.
      cbn [universal_newlines]. destruct (Ascii.eqb c CR) eqn:Ec.
      + destruct s as [|d s]; [reflexivity|].
        destruct (Ascii.eqb d LF); cbn [forallb]; simpl in Hn;
          rewrite IH by (simpl; lia); reflexivity.
      + cbn [forallb]. rewrite Ec, IH by lia. reflexivity. }
  now apply (H (length s)).
Qed.

Lemma cut_lines_ok (s : str) :
  forallb (fun c => negb (Ascii.eqb c CR)) s = true ->
  lines_ok (cut_lines s).
Proof.
  induction s as [|c s IH]; intros H; [constructor|].
  simpl in H. apply andb_true_iff in H as [Hc Hs].
  rewrite cut_lines_eq. destruct (Ascii.eqb c LF) eqn:El.
  - apply Ascii.eqb_eq in El. subst c.
    apply (lines_cons [] (cut_lines s)); [reflexivity|auto].
  - specialize (IH Hs). inversion IH as [E|body Hne Hb E|body rest Hb Hr E].
    + apply lines_last; [discriminate|]. simpl. now rewrite El, Hc.
    + apply lines_last; [discriminate|]. simpl. now rewrite El, Hc, Hb.
    + apply (lines_cons (c :: body) rest); [|assumption].
      simpl. now rewrite El, Hc, Hb.
Qed.

Lemma readlines_ok (s : str) : lines_ok (readlines s).
Proof. apply cut_lines_ok, universal_newlines_no_cr. Qed.

Lemma lines_ok_commented (cseq : str) (c x : list str) :
  no_newline cseq = true -> lines_ok c ->
  Forall2 (maybe_commented cseq) c x -> lines_ok x.
Proof.
  intros Hc Hl. revert x.
  induction Hl as [|body Hne Hb|body rest Hb Hrest IH]; intros x F.
  - inversion F. constructor.
  - inversion F as [|? o ? x' [->| ->] F']; subst; inversion F'; subst.
    + now apply lines_last.
    + apply lines_last; [destruct cseq; [assumption|discriminate]|].
      now rewrite no_newline_app, Hc, Hb.
  - inversion F as [|? o ? x' [->| ->] F']; subst.
    + apply lines_cons; auto.
    + rewrite app_assoc. apply lines_cons; auto.
      now rewrite no_newline_app, Hc, Hb.
Qed.

(** ** The round trip through the stage *)

Lemma filter_loop_cons (body : bool -> str -> turn) (s : bool) (line : str)
  (rest : list str) :
  fst (filter_loop body s (line :: rest))
  = written (body s line) :: fst (filter_loop body (mode (body s line)) rest).
Proof.
  simpl. now destruct (filter_loop body (mode (body s line)) rest).
Qed.

(** A directive line is written as it is and sets the mode by itself. *)
Lemma specialize_line_directive (m : Manager) (cseq line : str) (s : bool) :
  is_directive cseq line = true ->
  mode (specialize_line m cseq s line) = suppresses m cseq line
  /\ written (specialize_line m cseq s line) = line.
Proof.
  unfold is_directive, specialize_line, suppresses, host_listed,
    section_tags_of.
  destruct (str_in (cseq ++ cseq ++ lit "only") line),
    (str_in (cseq ++ cseq ++ lit "not") line),
    (str_in (cseq ++ cseq ++ lit "end") line),
    (truthy (filter (tag_in (tl (split_whitespace line))) (_tags m)));
    simpl; intros H; try discriminate; auto.
Qed.

Lemma generalize_line_directive (m : Manager) (cseq line : str) (s : bool) :
  is_directive cseq line = true ->
  mode (generalize_line m cseq s line) = suppresses m cseq line
  /\ written (generalize_line m cseq s line) = line.
Proof.
  unfold is_directive, generalize_line, suppresses, host_listed,
    section_tags_of.
  destruct (str_in (cseq ++ cseq ++ lit "only") line),
    (str_in (cseq ++ cseq ++ lit "not") line),
    (str_in (cseq ++ cseq ++ lit "end") line),
    (truthy (filter (tag_in (tl (split_whitespace line))) (_tags m)));
    simpl; intros H; try discriminate; auto.
Qed.

(** Stripping takes off the comment sequence that specialize put on. *)
Lemma strip_commented (cseq line : str) :
  cseq <> [] -> str_join cseq (tl (str_split cseq (cseq ++ line))) = line.
Proof.
  intros H. now rewrite join_tl_split, partition_prefix.
Qed.

(** Outside a suppressed block every line is written as it is. *)
Lemma specialize_line_verbatim (m : Manager) (cseq line : str) :
  written (specialize_line m cseq false line) = line.
Proof.
  destruct (is_directive cseq line) eqn:E.
  - now apply specialize_line_directive.
  - now rewrite specialize_line_plain.
Qed.

Lemma generalize_line_verbatim (m : Manager) (cseq line : str) :
  written (generalize_line m cseq false line) = line.
Proof.
  destruct (is_directive cseq line) eqn:E.
  - now apply generalize_line_directive.
  - now rewrite generalize_line_plain.
Qed.

(** The three passes side by side.  [sc] is the mode of specialize on the
    repository text [c], [sy] the mode of generalize, and of the second
    specialize, on what was written; they differ only after a commented-out
    line that reads as a directive, and then the later passes suppress
    nothing that the first did not. *)
Lemma roundtrip_loop (m : Manager) (cseq : str) (c : list str) :
  cseq <> [] ->
  forall sc sy : bool, (sy = true -> sc = true) ->
    let y := fst (filter_loop (specialize_line m cseq) sc c) in
    let g := fst (filter_loop (generalize_line m cseq) sy y) in
    fst (filter_loop (specialize_line m cseq) sy g) = y
    /\ Forall2 (maybe_commented cseq) c y
    /\ Forall2 (maybe_commented cseq) c g.
Proof.
  intros Hc. induction c as [|l c IH]; intros sc sy Hs; cbv zeta.
  - simpl. auto.
  - rewrite filter_loop_cons.
    destruct (is_directive cseq l) eqn:Dl.
    + (* a directive of the repository text *)
      destruct (specialize_line_directive m cseq l sc Dl) as [-> ->].
      rewrite filter_loop_cons.
      destruct (generalize_line_directive m cseq l sy Dl) as [-> ->].
      rewrite filter_loop_cons.
      destruct (specialize_line_directive m cseq l sy Dl) as [-> ->].
      destruct (IH (suppresses m cseq l) (suppresses m cseq l))
        as (E & F1 & F2); [auto|].
      cbv zeta in E. rewrite E.
      repeat split; constructor; auto; now left.
    + rewrite specialize_line_plain by assumption. cbn [mode written].
      destruct sc.
      * (* a line that is commented out *)
        rewrite filter_loop_cons.
        destruct (is_directive cseq (cseq ++ l)) eqn:Dy.
        -- destruct (generalize_line_directive m cseq _ sy Dy) as [-> ->].
           rewrite filter_loop_cons.
           destruct (specialize_line_directive m cseq _ sy Dy) as [-> ->].
           destruct (IH true (suppresses m cseq (cseq ++ l)))
             as (E & F1 & F2); [auto|].
           cbv zeta in E. rewrite E.
           repeat split; constructor; auto; now right.
        -- rewrite generalize_line_plain by assumption. cbn [mode written].
           destruct sy.
           ++ rewrite strip_commented by assumption.
              rewrite filter_loop_cons.
              rewrite specialize_line_plain by assumption.
              cbn [mode written].
              destruct (IH true true) as (E & F1 & F2); [auto|].
              cbv zeta in E. rewrite E.
              repeat split; constructor; auto; (now right) || (now left).
           ++ rewrite filter_loop_cons.
              rewrite specialize_line_plain by assumption.
              cbn [mode written].
              destruct (IH true false) as (E & F1 & F2); [auto|].
              cbv zeta in E. rewrite E.
              repeat split; constructor; auto; now right.
      * (* a line outside a suppressed block *)
        assert (sy = false) as ->
            by (destruct sy; [now specialize (Hs eq_refl)|reflexivity]).
        rewrite filter_loop_cons.
        rewrite generalize_line_plain by assumption. cbn [mode written].
        rewrite filter_loop_cons.
        rewrite specialize_line_plain by assumption. cbn [mode written].
        destruct (IH false false) as (E & F1 & F2); [auto|].
        cbv zeta in E. rewrite E.
        repeat split; constructor; auto; now left.
Qed.

Lemma filter_and_write_fst (body : Manager -> str -> bool -> str -> turn)
  (m : Manager) (first : str) (rest : list str) :
  fst (filter_and_write body m (first :: rest))
  = match fst (_identify_comment_sequence m first) with
    | Return cseq =>
        Return (fst (filter_loop (body m cseq) false (first :: rest)))
    | Exit => Exit
    | Raise e => Raise e
    end.
Proof.
  unfold filter_and_write.
  destruct (_identify_comment_sequence m first) as [[cseq| |e] ps];
    simpl; try reflexivity.
  now destruct (filter_loop (body m cseq) (mode (body m cseq false first))
                  rest).
Qed.

(** What a filter writes when it writes: the text has lines, the first
    gives the comment sequence, and the pieces come from the loop. *)
Lemma filter_text_written (body : Manager -> str -> bool -> str -> turn)
  (m : Manager) (content y : str) :
  filter_text body m content = Return (Some y) ->
  exists first rest cseq,
    readlines content = first :: rest
    /\ fst (_identify_comment_sequence m first) = Return cseq
    /\ y = concat (fst (filter_loop (body m cseq) false (first :: rest))).
Proof.
  unfold filter_text. destruct (readlines content) as [|first rest];
    [discriminate|].
  rewrite filter_and_write_fst.
  destruct (fst (_identify_comment_sequence m first)) as [cseq| |e] eqn:Hi;
    try discriminate.
  intros [= <-]. now exists first, rest, cseq.
Qed.

Lemma filter_text_lines (body : Manager -> str -> bool -> str -> turn)
  (m : Manager) (content first cseq : str) (rest : list str) :
  readlines content = first :: rest ->
  fst (_identify_comment_sequence m first) = Return cseq ->
  filter_text body m content
  = Return (Some (concat (fst (filter_loop (body m cseq) false
                                 (first :: rest))))).
Proof.
  intros Hr Hi. unfold filter_text. rewrite Hr, filter_and_write_fst, Hi.
  reflexivity.
Qed.

(** C2: when specialize writes a stage text for a repository text,
    generalizing that stage text writes a repository text, and specializing
    the latter writes the same stage text again.  This holds for every
    repository text and every tag set of the host, with balanced directives
    or not. *)
Theorem specialize_generalize_specialize (m : Manager) (content y : str) :
  specialize_text m content = Return (Some y) ->
  exists g,
    generalize_text m y = Return (Some g)
    /\ specialize_text m g = Return (Some y).
Proof.
  intros H. apply filter_text_written in H
    as (first & rest & cseq & Hr & Hi & ->).
  destruct (identify_return m first cseq Hi) as [Hne Hns].
  pose proof (nonspace_no_newline cseq Hns) as Hnl.
  assert (Hok : lines_ok (first :: rest))
    by (rewrite <- Hr; apply readlines_ok).
  destruct (roundtrip_loop m cseq (first :: rest) Hne false false)
    as (E & Fy & Fg); [auto|]. cbv zeta in E, Fy, Fg.
  set (ys := fst (filter_loop (specialize_line m cseq) false
                    (first :: rest))) in *.
  set (gs := fst (filter_loop (generalize_line m cseq) false ys)) in *.
  assert (Hy : ys = first :: tl ys).
  { unfold ys. rewrite filter_loop_cons, specialize_line_verbatim.
    reflexivity. }
  assert (Hg : gs = first :: tl gs).
  { unfold gs. rewrite Hy, filter_loop_cons, generalize_line_verbatim.
    reflexivity. }
  exists (concat gs). split.
  - unfold generalize_text.
    rewrite (filter_text_lines generalize_line m (concat ys) first cseq
               (tl ys)).
    + now rewrite <- Hy.
    + rewrite <- Hy. apply readlines_concat.
      now apply (lines_ok_commented cseq (first :: rest)).
    + assumption.
  - unfold specialize_text.
    rewrite (filter_text_lines specialize_line m (concat gs) first cseq
               (tl gs)).
    + rewrite <- Hg. now rewrite E.
    + rewrite <- Hg. apply readlines_concat.
      now apply (lines_ok_commented cseq (first :: rest)).
    + assumption.
Qed.

Lemma specialize_generalize_specialize_witness :
  exists g,
    generalize_text (example_manager ["home"] false)
      (text ["# dotfile"; "##only work"; "##end of the work settings";
             "#secret"; "##end"; "##not home"; "#x"; "##end"])
    = Return (Some g)
    /\ specialize_text (example_manager ["home"] false) g
       = Return (Some (text ["# dotfile"; "##only work";
                             "##end of the work settings"; "#secret";
                             "##end"; "##not home"; "#x"; "##end"])).
Proof.
  apply (specialize_generalize_specialize (example_manager ["home"] false)
           (text ["# dotfile"; "##only work"; "#end of the work settings";
                  "secret"; "##end"; "##not home"; "x"; "##end"])).
  vm_compute. reflexivity.
Defined.

(** ** The tags of the host *)

Lemma print_eq (s : str) (w : world) : print s w = (Return tt, printed_to w [s]).
Proof. reflexivity. Qed.

Lemma split_from_hd (n : nat) (sep s : str) :
  hd [] (split_from n sep s)
  = match partition sep s with
    | Some (a, _) => a
    | None => s
    end.
Proof. destruct n; simpl; now destruct (partition sep s) as [[a b]|]. Qed.

Lemma split_field_1 (sep line host after : str) :
  sep <> [] ->
  partition sep line = Some (host, after) ->
  nth_error (str_split sep line) 1
  = Some (match partition sep after with
          | Some (field, _) => field
          | None => after
          end).
Proof.
  intros Hsep P. unfold str_split.
  assert (L : 0 < length line).
  { apply partition_some in P. subst line. rewrite !length_app.
    destruct sep; [congruence|simpl; lia]. }
  destruct (length line) as [|n]; [lia|].
  cbn [split_from]. rewrite P. cbn [nth_error].
  pose proof (split_from_hd n sep after) as H.
  pose proof (split_from_nonempty n sep after) as Hne.
  destruct (split_from n sep after); [congruence|].
  simpl in H. now rewrite H.
Qed.

Lemma colon_free_prefix (host r a' b' : str) :
  str_in (lit ":") host = false ->
  host ++ lit ":" ++ r = a' ++ lit ":" ++ b' ->
  length host <= length a'.
Proof.
  revert a'; induction host as [|c host IH]; intros a' Hf E; simpl; [lia|].
  destruct a' as [|c' a'].
  - simpl in E. injection E as -> _. discriminate Hf.
  - simpl in E. injection E as _ E. simpl. apply le_n_S.
    apply (IH a'); [|assumption].
    rewrite str_in_eq in Hf. apply orb_false_iff in Hf. tauto.
Qed.

(** For a host name without colon, the test of the source, that the line
    starts with the host name and a colon, says that the text before the
    first colon of the line is the host name. *)
Lemma startswith_host (host line : str) :
  str_in (lit ":") host = false ->
  startswith (host ++ lit ":") line = true <-> host_of line = Some host.
Proof.
  intros Hf. unfold host_of. split.
  - intros H. apply startswith_inv in H as [r ->]. rewrite <- app_assoc.
    rewrite partition_at_first; [reflexivity|].
    intros a' b'. now apply colon_free_prefix.
  - destruct (partition (lit ":") line) as [[h after]|] eqn:P;
      [|discriminate].
    intros [= ->]. apply partition_some in P. subst line.
    rewrite app_assoc. apply startswith_app.
Qed.

Lemma get_tags_scan_match (verbose : bool) (host line : str)
  (rest : list str) (w : world) :
  str_in (lit ":") host = false ->
  host_of line = Some host ->
  _get_tags_scan verbose host (line :: rest) w
  = (Return (split_whitespace (tags_field line)),
     if verbose
     then printed_to w [lit "Found tags: "
                        ++ str_join (lit ", ")
                             (split_whitespace (tags_field line))]
     else w).
Proof.
  intros Hf Hh. cbn [_get_tags_scan].
  rewrite (proj2 (startswith_host host line Hf) Hh).
  unfold host_of in Hh. unfold tags_field.
  destruct (partition (lit ":") line) as [[h after]|] eqn:P; [|discriminate].
  rewrite (split_field_1 (lit ":") line h after) by (assumption || discriminate).
  now destruct verbose.
Qed.

(** C5, as the code has it, for a host name without colon: the lines are
    scanned in file order; the first line whose text before the first colon
    is the host name gives the tags, the whitespace-separated words of its
    text between the first colon and the second, or the end of the line;
    when no line is for the host the result is the list that holds the
    empty string, after a warning, and nothing is raised. *)
Theorem get_tags_first_match (tag_config_path : str) (verbose : bool)
  (content : str) (w : world) :
  files w tag_config_path = Some (File content) ->
  str_in (lit ":") (hostname w) = false ->
  (forall before line after,
      readlines content = before ++ line :: after ->
      Forall (fun l => host_of l <> Some (hostname w)) before ->
      host_of line = Some (hostname w) ->
      _get_tags tag_config_path verbose w
      = (Return (split_whitespace (tags_field line)),
         if verbose
         then printed_to w [lit "Found tags: "
                            ++ str_join (lit ", ")
                                 (split_whitespace (tags_field line))]
         else w))
  /\ (Forall (fun l => host_of l <> Some (hostname w)) (readlines content) ->
      _get_tags tag_config_path verbose w
      = (Return [[]],
         printed_to w [lit "Warning: No tags found for this machine!"])).
Proof.
  intros Hfile Hf.
  assert (Hopen : _get_tags tag_config_path verbose w
                  = _get_tags_scan verbose (hostname w) (readlines content) w).
  { unfold _get_tags, open_readlines, bind, get, MAXSYMLINKS.
    cbn [follow]. now rewrite Hfile. }
  rewrite Hopen. clear Hopen.
  generalize (readlines content) as lines. intros lines. split.
  - intros before line after -> Hb Hl.
    induction Hb as [|l before Hl' Hb IH].
    + now apply get_tags_scan_match.
    + cbn [app _get_tags_scan].
      destruct (startswith (hostname w ++ lit ":") l) eqn:E; [|exact IH].
      apply startswith_host in E; [congruence|assumption].
  - induction 1 as [|l rest Hl' Hr IH].
    + reflexivity.
    + cbn [_get_tags_scan].
      destruct (startswith (hostname w ++ lit ":") l) eqn:E; [|exact IH].
      apply startswith_host in E; [congruence|assumption].
Qed.

Lemma get_tags_first_match_witness :
  _get_tags (lit "/repo/tags.conf") false
    (example_host "laptop"
       (text ["desktop:work big"; "lap:none"; "laptop: home  small";
              "laptop:later"]))
  = (Return [lit "home"; lit "small"],
     example_host "laptop"
       (text ["desktop:work big"; "lap:none"; "laptop: home  small";
              "laptop:later"])).
Proof.
  apply (proj1 (get_tags_first_match (lit "/repo/tags.conf") false
                  (text ["desktop:work big"; "lap:none";
                         "laptop: home  small"; "laptop:later"])
                  (example_host "laptop"
                     (text ["desktop:work big"; "lap:none";
                            "laptop: home  small"; "laptop:later"]))
                  eq_refl eq_refl)
           [lit "desktop:work big" ++ [LF]; lit "lap:none" ++ [LF]]
           (lit "laptop: home  small" ++ [LF])
           [lit "laptop:later" ++ [LF]]).
  - reflexivity.
  - repeat constructor; discriminate.
  - reflexivity.
Defined.

(** C5 as stated fails for a host name that holds a colon: on the host
    [a:b] no line has [a:b] before its first colon, and still the line
    [a:b:x y] is taken for the host's and gives the tag [b].  And of a line
    whose tags hold a colon only the words before that colon are returned:
    on the host [laptop] the line [laptop:a b:c] gives [a] and [b]. *)
Lemma get_tags_counterexample :
  let content := text ["a:b:x y"] in
  let w := example_host "a:b" content in
  Forall (fun l => host_of l <> Some (hostname w)) (readlines content)
  /\ fst (_get_tags (lit "/repo/tags.conf") false w) = Return [lit "b"]
  /\ fst (_get_tags (lit "/repo/tags.conf") false w) <> Return [[]]
  /\ fst (_get_tags (lit "/repo/tags.conf") false
            (example_host "laptop" (text ["laptop:a b:c"])))
     = Return [lit "a"; lit "b"]
  /\ split_whitespace (lit "a b:c" ++ [LF]) = [lit "a"; lit "b:c"].
Proof.
  cbv zeta. repeat split.
  - repeat constructor. discriminate.
  - discriminate.
Qed.

(** ** The operations on missing and managed files *)

Lemma bind_eq {A B} (c : M A) (k : A -> M B) (w : world) :
  bind c k w
  = match c w with
    | (Return a, w') => k a w'
    | (Exit, w') => (Exit, w')
    | (Raise e, w') => (Raise e, w')
    end.
Proof. reflexivity. Qed.





(** C9, as the code has it: when the home instance is a symbolic link,
    [add] ends the process before it moves, links or generalizes anything;
    the file system is as it was, and the message is printed only by a
    verbose manager. *)
Theorem add_managed_exits (m : Manager) (dotfile_path : str) (commit : bool)
  (w : world) (target : str) :
  files w (home_path (HOME w) dotfile_path) = Some (Link target) ->
  add m dotfile_path commit w
  = (Exit,
     if verbose m
     then printed_to w [already_managed (home_path (HOME w) dotfile_path)]
     else w).
Proof.
  intros H. unfold add, bind, get, islink, get. rewrite H.
  destruct (verbose m); reflexivity.
Qed.

Lemma add_managed_exits_witness :
  add (example_manager ["home"] true) (lit ".vimrc") true managed_world
  = (Exit,
     printed_to managed_world [already_managed (lit "/home/user/.vimrc")]).
Proof.
  apply (add_managed_exits (example_manager ["home"] true) (lit ".vimrc")
           true managed_world (lit "/stage/.vimrc")).
  reflexivity.
Defined.

(** C9 as stated fails for a manager that is not verbose: [add] on a home
    instance that is a link ends the process and prints nothing. *)
Lemma add_managed_counterexample :
  files managed_world (home_path (HOME managed_world) (lit ".vimrc"))
  = Some (Link (lit "/stage/.vimrc"))
  /\ add (example_manager ["home"] false) (lit ".vimrc") false managed_world
     = (Exit, managed_world)
  /\ stdout (snd (add (example_manager ["home"] false) (lit ".vimrc") false
                    managed_world)) = [].
Proof. repeat split. Qed.







(** ** What holds of a suppressed block *)

(** A filter on a text ends in one of three ways: the text has no line and
    nothing is written; its first line has no comment sequence and the
    process exits; or a text is written.  Nothing is raised. *)
Lemma filter_text_outcome (body : Manager -> str -> bool -> str -> turn)
  (m : Manager) (content : str) :
  (readlines content = [] /\ filter_text body m content = Return None)
  \/ (exists first rest,
         readlines content = first :: rest
         /\ forallb isspace first = true
         /\ filter_text body m content = Exit)
  \/ (exists first rest y,
         readlines content = first :: rest
         /\ existsb nonspace first = true
         /\ filter_text body m content = Return (Some y)).
Proof.
  unfold filter_text.
  destruct (readlines content) as [|first rest]; [now left|right].
  rewrite filter_and_write_fst.
  destruct (forallb isspace first) eqn:E.
  - left. exists first, rest. repeat split; [assumption|].
    unfold _identify_comment_sequence, findall_nonspace.
    now rewrite runs_from_all_space.
  - right.
    assert (Hex : existsb nonspace first = true).
    { clear -E. induction first as [|c l IH]; [discriminate|].
      simpl in *. unfold nonspace at 1.
      destruct (isspace c); simpl in *; auto. }
    destruct (first_run_exists first Hex)
      as (pre & run & post & -> & Hpre & Hne & Hrun & Hpost).
    unfold _identify_comment_sequence, findall_nonspace.
    rewrite runs_from_skip by assumption.
    destruct (runs_from_run run [] post Hrun Hpost Hne) as [more ->].
    simpl. eauto 6.
Qed.

(** The lines of a block that [only] opens for other hosts: specialize
    puts the comment sequence before each, and generalize takes it off
    again, provided that no line of the block reads as a directive, before
    or after it is commented out. *)
Lemma only_block_roundtrip (m : Manager) (cseq dline : str)
  (block rest rest' : list str) (s1 s2 : bool) :
  cseq <> [] ->
  str_in (cseq ++ cseq ++ lit "only") dline = true ->
  host_listed m (section_tags_of dline) = false ->
  Forall (fun l => is_directive cseq l = false
                   /\ is_directive cseq (cseq ++ l) = false) block ->
  fst (filter_loop (specialize_line m cseq) s1 (dline :: block ++ rest))
  = dline :: map (app cseq) block
      ++ fst (filter_loop (specialize_line m cseq) true rest)
  /\ fst (filter_loop (generalize_line m cseq) s2
            (dline :: map (app cseq) block ++ rest'))
     = dline :: block
         ++ fst (filter_loop (generalize_line m cseq) true rest').
Proof.
  intros Hc Ho Hl Hb.
  assert (Hd : is_directive cseq dline = true)
    by (unfold is_directive; now rewrite Ho).
  assert (Hs : suppresses m cseq dline = true)
    by (unfold suppresses; now rewrite Ho, Hl).
  rewrite !filter_loop_cons.
  destruct (specialize_line_directive m cseq dline s1 Hd) as [-> ->].
  destruct (generalize_line_directive m cseq dline s2 Hd) as [-> ->].
  rewrite Hs. split; f_equal.
  - induction Hb as [|l block [Hl1 Hl2] Hb IH]; [reflexivity|].
    cbn [app map]. rewrite filter_loop_cons.
    rewrite specialize_line_plain by assumption. cbn [mode written].
    now rewrite IH.
  - induction Hb as [|l block [Hl1 Hl2] Hb IH]; [reflexivity|].
    cbn [app map]. rewrite filter_loop_cons.
    rewrite generalize_line_plain by assumption. cbn [mode written].
    rewrite strip_commented by assumption. now rewrite IH.
Qed.

(** ** The operations write what the filters give *)

Lemma str_eqb_refl (a : str) : str_eqb a a = true.
Proof. unfold str_eqb. now destruct (list_eq_dec ascii_dec a a). Qed.

Lemma str_eqb_neq (a b : str) : a <> b -> str_eqb a b = false.
Proof. unfold str_eqb. now destruct (list_eq_dec ascii_dec a b). Qed.

Lemma print_all_files (ss : list str) (w : world) :
  exists w', print_all ss w = (Return tt, w') /\ files w' = files w.
Proof.
  revert w; induction ss as [|s ss IH]; intros w; cbn [print_all].
  - now exists w.
  - rewrite bind_eq, print_eq.
    destruct (IH (printed_to w [s])) as (w' & -> & E). now exists w'.
Qed.

Lemma write_all_files (dotfile : str) (chunks : list str) (w : world)
  (old : str) :
  files w dotfile = Some (File old) ->
  exists w',
    write_all dotfile chunks w = (Return tt, w')
    /\ files w' dotfile = Some (File (old ++ concat chunks))
    /\ forall q, q <> dotfile -> files w' q = files w q.
Proof.
  revert w old; induction chunks as [|s chunks IH]; intros w old H;
    cbn [write_all].
  - exists w. rewrite app_nil_r. auto.
  - rewrite bind_eq. unfold write at 1. rewrite bind_eq.
    unfold get at 1. cbv beta. rewrite H. unfold store at 1.
    set (w1 := {| files := _; stdout := stdout w; HOME := HOME w;
                  hostname := hostname w |}).
    destruct (IH w1 (old ++ s)) as (w' & -> & E & F).
    { unfold w1. cbn [files]. now rewrite str_eqb_refl. }
    exists w'. split; [reflexivity|]. split.
    + rewrite E. cbn [concat]. now rewrite app_assoc.
    + intros q Hq. rewrite (F q Hq). unfold w1. cbn [files].
      now rewrite str_eqb_neq.
Qed.

Lemma run_filter_files (r : outcome (list str) * list str)
  (chunks : list str) (dotfile : str) (w : world) :
  fst r = Return chunks ->
  files w dotfile = Some (File []) ->
  exists w',
    run_filter r dotfile w = (Return tt, w')
    /\ files w' dotfile = Some (File (concat chunks))
    /\ forall q, q <> dotfile -> files w' q = files w q.
Proof.
  intros Hr H. unfold run_filter. rewrite bind_eq.
  destruct (print_all_files (snd r) w) as (w0 & -> & E0). rewrite Hr.
  destruct (write_all_files dotfile chunks w0 []) as (w' & -> & E & F).
  { now rewrite E0. }
  exists w'. split; [reflexivity|]. split; [assumption|].
  intros q Hq. rewrite (F q Hq). now rewrite E0.
Qed.

(** Opening for writing a path that holds a regular file or nothing. *)
Lemma open_w_files (p : str) (w : world) :
  (files w p = None \/ exists old, files w p = Some (File old)) ->
  exists w',
    open_w p w = (Return p, w')
    /\ files w' p = Some (File [])
    /\ forall q, q <> p -> files w' q = files w q.
Proof.
  intros H. unfold open_w. rewrite bind_eq. unfold get at 1. cbv beta.
  assert (E : follow MAXSYMLINKS (files w) p = Some (p, files w p)).
  { unfold MAXSYMLINKS. cbn [follow]. now destruct H as [->|[old ->]]. }
  rewrite E.
  assert (E' : forall n, (files w p = n) ->
     match n with
     | Some Dir => @raise str IsADirectoryError
     | _ => store p (Some (File [])) ;; ret p
     end w
     = (Return p,
        {| files := fun q => if str_eqb q p then Some (File [])
                             else files w q;
           stdout := stdout w; HOME := HOME w; hostname := hostname w |})).
  { intros n Hn. destruct H as [H|[old H]]; rewrite H in Hn; subst n;
      reflexivity. }
  eexists. split; [apply (E' _ eq_refl)|]. cbn [files].
  split; [now rewrite str_eqb_refl|].
  intros q Hq. now rewrite str_eqb_neq.
Qed.

Lemma makedirs_existing (p : str) (w : world) :
  files w p = Some Dir -> makedirs p w = (Return tt, w).
Proof.
  intros H. unfold makedirs. rewrite bind_eq. unfold isdir, get, MAXSYMLINKS.
  cbn [follow]. now rewrite H.
Qed.

Lemma open_readlines_file (p content : str) (w : world) :
  files w p = Some (File content) ->
  open_readlines p w = (Return (readlines content), w).
Proof.
  intros H. unfold open_readlines. rewrite bind_eq.
  unfold get, MAXSYMLINKS. cbn [follow]. now rewrite H.
Qed.

(** [specialize] on a repository file, the stage directory in place and
    the stage path free or a regular file: the stage file holds the text
    that [specialize_text] gives, and nothing else changes in the file
    system. *)
Lemma specialize_stage (m : Manager) (dotfile_path content y : str)
  (w : world) :
  files w (repo_path m dotfile_path) = Some (File content) ->
  files w (stage_path m (dirname dotfile_path)) = Some Dir ->
  (files w (stage_path m dotfile_path) = None
   \/ exists old, files w (stage_path m dotfile_path) = Some (File old)) ->
  specialize_text m content = Return (Some y) ->
  exists w',
    specialize m dotfile_path false w = (Return tt, w')
    /\ files w' (stage_path m dotfile_path) = Some (File y)
    /\ forall q, q <> stage_path m dotfile_path -> files w' q = files w q.
Proof.
  intros Hrepo Hdir Hstage Hy.
  unfold specialize_text, filter_text in Hy.
  unfold specialize. rewrite bind_eq, print_eq. rewrite bind_eq.
  rewrite open_readlines_file with (content := content) by exact Hrepo.
  destruct (readlines content) as [|first rest]; [discriminate|].
  set (lines := first :: rest) in *.
  destruct (fst (filter_and_write specialize_line m lines))
    as [chunks| |e] eqn:Hf; try discriminate.
  injection Hy as <-.
  set (w0 := printed_to w _).
  rewrite bind_eq, makedirs_existing by exact Hdir.
  rewrite bind_eq.
  destruct (open_w_files (stage_path m dotfile_path) w0 Hstage)
    as (w1 & -> & E1 & F1).
  rewrite bind_eq.
  destruct (run_filter_files (specialize_filter_and_write m lines) chunks
              (stage_path m dotfile_path) w1 Hf E1) as (w2 & -> & E2 & F2).
  exists w2. split; [reflexivity|]. split; [assumption|].
  intros q Hq. now rewrite (F2 q Hq), (F1 q Hq).
Qed.

(** [generalize] on a stage file, likewise. *)
Lemma generalize_repo (m : Manager) (dotfile_path content g : str)
  (w : world) :
  files w (stage_path m dotfile_path) = Some (File content) ->
  files w (repo_path m (dirname dotfile_path)) = Some Dir ->
  (files w (repo_path m dotfile_path) = None
   \/ exists old, files w (repo_path m dotfile_path) = Some (File old)) ->
  generalize_text m content = Return (Some g) ->
  exists w',
    generalize m dotfile_path false None w = (Return tt, w')
    /\ files w' (repo_path m dotfile_path) = Some (File g)
    /\ forall q, q <> repo_path m dotfile_path -> files w' q = files w q.
Proof.
  intros Hstage Hdir Hrepo Hg.
  unfold generalize_text, filter_text in Hg.
  unfold generalize. rewrite bind_eq, print_eq. rewrite bind_eq.
  set (w0 := printed_to w _).
  unfold try_except at 1. rewrite bind_eq.
  rewrite open_readlines_file with (content := content) by exact Hstage.
  cbn [ret].
  destruct (readlines content) as [|first rest]; [discriminate|].
  set (lines := first :: rest) in *.
  destruct (fst (filter_and_write generalize_line m lines))
    as [chunks| |e] eqn:Hf; try discriminate.
  injection Hg as <-.
  rewrite bind_eq, makedirs_existing by exact Hdir.
  rewrite bind_eq.
  destruct (open_w_files (repo_path m dotfile_path) w0 Hrepo)
    as (w1 & -> & E1 & F1).
  rewrite bind_eq.
  destruct (run_filter_files (generalize_filter_and_write m lines) chunks
              (repo_path m dotfile_path) w1 Hf E1) as (w2 & -> & E2 & F2).
  exists w2. split; [reflexivity|]. split; [assumption|].
  intros q Hq. now rewrite (F2 q Hq), (F1 q Hq).
Qed.

(** X16: Three passes on disk: specialize, generalize and specialize again, on
    a dotfile whose repository and stage files are different files in
    existing directories, leave in the stage file the text that the three
    filters give one after the other. *)
Lemma three_passes_on_disk (m : Manager) (dotfile_path content y g y' : str)
  (w : world) :
  files w (repo_path m dotfile_path) = Some (File content) ->
  files w (repo_path m (dirname dotfile_path)) = Some Dir ->
  files w (stage_path m (dirname dotfile_path)) = Some Dir ->
  (files w (stage_path m dotfile_path) = None
   \/ exists old, files w (stage_path m dotfile_path) = Some (File old)) ->
  repo_path m dotfile_path <> stage_path m dotfile_path ->
  specialize_text m content = Return (Some y) ->
  generalize_text m y = Return (Some g) ->
  specialize_text m g = Return (Some y') ->
  exists w1 w2 w3,
    specialize m dotfile_path false w = (Return tt, w1)
    /\ generalize m dotfile_path false None w1 = (Return tt, w2)
    /\ specialize m dotfile_path false w2 = (Return tt, w3)
    /\ files w1 (stage_path m dotfile_path) = Some (File y)
    /\ files w2 (repo_path m dotfile_path) = Some (File g)
    /\ files w3 (stage_path m dotfile_path) = Some (File y').
Proof.
  intros Hrepo Hrd Hsd Hstage Hne Hy Hg Hy'.
  destruct (specialize_stage m dotfile_path content y w Hrepo Hsd Hstage Hy)
    as (w1 & E1 & S1 & F1).
  assert (Nsd : stage_path m (dirname dotfile_path)
                <> repo_path m dotfile_path) by congruence.
  assert (Nrd : repo_path m (dirname dotfile_path)
                <> stage_path m dotfile_path)
    by (destruct Hstage as [H|[old H]]; congruence).
  destruct (generalize_repo m dotfile_path y g w1 S1) as (w2 & E2 & S2 & F2);
    [rewrite F1; assumption| right; exists content; rewrite F1; auto
    | assumption |].
  destruct (specialize_stage m dotfile_path g y' w2) as (w3 & E3 & S3 & F3).
  - assumption.
  - rewrite F2, F1; try assumption.
    destruct Hstage as [H|[old H]]; congruence.
  - right. exists y. rewrite F2; auto.
  - assumption.
  - exists w1, w2, w3. auto 10.
Qed.

(** ** The model on small inputs *)

Example readlines_example :
  readlines (lit "a" ++ [CR; LF] ++ lit "b c" ++ [LF; LF] ++ lit "d")
  = [lit "a" ++ [LF]; lit "b c" ++ [LF]; [LF]; lit "d"].
Proof. reflexivity. Qed.

Example readlines_carriage_returns :
  readlines (lit "a" ++ [CR] ++ lit "b" ++ [CR; CR; LF] ++ lit "c")
  = [lit "a" ++ [LF]; lit "b" ++ [LF]; [LF]; lit "c"].
Proof. reflexivity. Qed.

Example split_overlapping :
  str_split (lit "aa") (lit "aaa") = [[]; lit "a"]
  /\ str_split (lit "aa") (lit "aaaa") = [[]; []; []].
Proof. split; reflexivity. Qed.

Example split_example :
  str_split (lit "#") (lit "a#b##c") = [lit "a"; lit "b"; []; lit "c"]
  /\ split_whitespace (lit "  ##only  work home" ++ [LF])
     = [lit "##only"; lit "work"; lit "home"]
  /\ str_join (lit "#") (tl (str_split (lit "#") (lit "a#b##c")))
     = lit "b##c".
Proof. repeat split. Qed.

Example paths_example :
  dirname (lit ".config/git/config") = lit ".config/git"
  /\ dirname (lit ".vimrc") = []
  /\ join (lit "/stage") (lit ".config/git/config")
     = lit "/stage/.config/git/config"
  /\ home_path (lit "/home/user/") (lit ".vimrc") = lit "/home/user/.vimrc".
Proof. repeat split. Qed.

(** A block for the host itself passes both filters unchanged. *)
Example own_block_example :
  let m := example_manager ["work"] false in
  let generic := text ["# dotfile"; "##only work"; "secret"; "##end"] in
  specialize_text m generic = Return (Some generic)
  /\ generalize_text m generic = Return (Some generic).
Proof. cbv zeta. split; vm_compute; reflexivity. Qed.

(** On a host without entry the tag list holds the empty string, which no
    directive lists: [only] blocks are commented out, [not] blocks kept. *)
Example unknown_host_example :
  let m := {| dotfile_repository := example_repository;
              dotfile_stage_path := lit "/stage";
              dotfile_tag_config_path := lit "/repo/tags.conf";
              verbose := false;
              _tags := [[]] |} in
  specialize_text m
    (text ["# dotfile"; "##only work"; "a"; "##not work"; "b"; "##end"])
  = Return (Some (text ["# dotfile"; "##only work"; "#a"; "##not work"; "b";
                        "##end"])).
Proof. vm_compute. reflexivity. Qed.

(** * Further properties of the filters *)

Lemma concat_cut_lines (s : str) : concat (cut_lines s) = s.
Proof.
  induction s as [|c s IH]; [reflexivity|].
  rewrite cut_lines_eq. destruct (Ascii.eqb c LF).
  - cbn [concat app]. now rewrite IH.
  - destruct (cut_lines s) as [|l ls].
    + simpl in IH. now subst s.
    + cbn [concat] in *. cbn [app]. now rewrite IH.
Qed.

(** The lines of a text, put together again, are the text as it is read. *)
Lemma concat_readlines (s : str) :
  concat (readlines s) = universal_newlines s.
Proof. apply concat_cut_lines. Qed.

(** X1: Specialize keeps every line: the stage text has the lines of the
    repository text, in order, each as it was or with the comment sequence
    of the file before it, and the first line as it was. *)
Theorem specialize_keeps_every_line (m : Manager) (content y : str) :
  specialize_text m content = Return (Some y) ->
  exists first rest cseq,
    readlines content = first :: rest
    /\ fst (_identify_comment_sequence m first) = Return cseq
    /\ Forall2 (maybe_commented cseq) (first :: rest) (readlines y)
    /\ hd [] (readlines y) = first.
Proof.
  intros H. apply filter_text_written in H
    as (first & rest & cseq & Hr & Hi & ->).
  destruct (identify_return m first cseq Hi) as [Hne Hns].
  pose proof (nonspace_no_newline cseq Hns) as Hnl.
  assert (Hok : lines_ok (first :: rest))
    by (rewrite <- Hr; apply readlines_ok).
  destruct (roundtrip_loop m cseq (first :: rest) Hne false false)
    as (_ & Fy & _); [auto|]. cbv zeta in Fy.
  exists first, rest, cseq.
  rewrite readlines_concat
    by now apply (lines_ok_commented cseq (first :: rest)).
  repeat split; try assumption.
  rewrite filter_loop_cons, specialize_line_verbatim. reflexivity.
Qed.

Lemma specialize_keeps_every_line_witness :
  exists first rest cseq,
    readlines (text ["# dotfile"; "##only work"; "secret"; "##end"; "x"])
    = first :: rest
    /\ fst (_identify_comment_sequence (example_manager ["home"] false) first)
       = Return cseq
    /\ Forall2 (maybe_commented cseq) (first :: rest)
         (readlines (text ["# dotfile"; "##only work"; "#secret"; "##end";
                           "x"]))
    /\ hd [] (readlines (text ["# dotfile"; "##only work"; "#secret";
                               "##end"; "x"]))
       = first.
Proof.
  apply (specialize_keeps_every_line (example_manager ["home"] false)
           (text ["# dotfile"; "##only work"; "secret"; "##end"; "x"])).
  vm_compute. reflexivity.
Defined.

Lemma generalize_line_suffix (m : Manager) (cseq line : str) (s : bool) :
  cseq <> [] ->
  exists pre, line = pre ++ written (generalize_line m cseq s line).
Proof.
  intros Hc. destruct (is_directive cseq line) eqn:D.
  - destruct (generalize_line_directive m cseq line s D) as [_ ->].
    now exists [].
  - rewrite generalize_line_plain by assumption. cbn [written].
    destruct s; [|now exists []].
    rewrite join_tl_split by assumption.
    destruct (partition cseq line) as [[a b]|] eqn:P.
    + apply partition_some in P. exists (a ++ cseq).
      now rewrite <- app_assoc.
    + exists line. now rewrite app_nil_r.
Qed.

(** What the strip step of [generalize] writes is the stripped end of the
    line. *)
Lemma strip_stripped_end (cseq line : str) :
  cseq <> [] ->
  stripped_end cseq line (str_join cseq (tl (str_split cseq line))).
Proof.
  intros Hc. rewrite join_tl_split by assumption.
  destruct (partition cseq line) as [[a b]|] eqn:P.
  - left. exists a. split.
    + now apply partition_some.
    + now apply (partition_first cseq line a b).
  - right. split; [now apply partition_none|reflexivity].
Qed.

Lemma generalize_loop_ends (m : Manager) (cseq : str) (lines : list str) :
  cseq <> [] ->
  forall s,
    line_ends m cseq s lines
      (fst (filter_loop (generalize_line m cseq) s lines)).
Proof.
  intros Hc. induction lines as [|l lines IH]; intros s.
  - constructor.
  - rewrite filter_loop_cons. destruct (is_directive cseq l) eqn:D.
    + destruct (generalize_line_directive m cseq l s D) as [-> ->].
      now apply ends_directive.
    + rewrite generalize_line_plain by assumption. cbn [mode written].
      destruct s.
      * apply ends_stripped; [assumption|now apply strip_stripped_end|].
        apply IH.
      * apply ends_whole; [assumption|apply IH].
Qed.

(** X2: Generalize only takes text off the start of lines.  The text it
    writes is made of one piece for each line of the stage text, in the
    order of the lines, and each piece is an end of its line; which end is
    told by the directives of the file's comment sequence: a directive line
    is written whole, a line outside a suppressed block is written whole,
    and of a line inside a suppressed block the text after the first
    occurrence of the comment sequence is written, nothing when the line
    has none.  The first line is written whole. *)
Theorem generalize_writes_line_ends (m : Manager) (content g : str) :
  generalize_text m content = Return (Some g) ->
  exists first rest cseq pieces,
    readlines content = first :: rest
    /\ fst (_identify_comment_sequence m first) = Return cseq
    /\ g = concat pieces
    /\ line_ends m cseq false (first :: rest) pieces
    /\ Forall2 (fun line piece => exists pre, line = pre ++ piece)
         (first :: rest) pieces
    /\ hd [] pieces = first.
Proof.
  intros H. apply filter_text_written in H
    as (first & rest & cseq & Hr & Hi & ->).
  destruct (identify_return m first cseq Hi) as [Hne _].
  exists first, rest, cseq. eexists.
  split; [exact Hr|]. split; [exact Hi|]. split; [reflexivity|].
  split; [now apply generalize_loop_ends|]. split.
  - generalize (first :: rest) as lines. generalize false as s.
    intros s lines. revert s.
    induction lines as [|l lines IH]; intros s.
    + constructor.
    + rewrite filter_loop_cons. constructor; [|apply IH].
      now apply generalize_line_suffix.
  - rewrite filter_loop_cons. cbn [hd].
    destruct (is_directive cseq first) eqn:D.
    + now apply generalize_line_directive.
    + now rewrite generalize_line_plain.
Qed.

Lemma generalize_writes_line_ends_witness :
  exists first rest cseq pieces,
    readlines (text ["# dotfile"; "##only work"; "x = 1 # secret"; "plain";
                     "##end"; "last # line"])
    = first :: rest
    /\ fst (_identify_comment_sequence (example_manager ["home"] false) first)
       = Return cseq
    /\ text ["# dotfile"; "##only work"; " secret"; "##end"; "last # line"]
       = concat pieces
    /\ line_ends (example_manager ["home"] false) cseq false (first :: rest)
         pieces
    /\ Forall2 (fun line piece => exists pre, line = pre ++ piece)
         (first :: rest) pieces
    /\ hd [] pieces = first.
Proof.
  apply (generalize_writes_line_ends (example_manager ["home"] false)
           (text ["# dotfile"; "##only work"; "x = 1 # secret"; "plain";
                  "##end"; "last # line"])).
  vm_compute. reflexivity.
Defined.

Lemma restore_loop (m : Manager) (cseq : str) (lines : list str) (s : bool) :
  cseq <> [] ->
  Forall (fun l => is_directive cseq l = false ->
                   is_directive cseq (cseq ++ l) = false) lines ->
  fst (filter_loop (generalize_line m cseq) s
         (fst (filter_loop (specialize_line m cseq) s lines)))
  = lines.
Proof.
  intros Hc F. revert s. induction F as [|l lines Hl F IH]; intros s.
  - reflexivity.
  - rewrite filter_loop_cons.
    destruct (is_directive cseq l) eqn:D.
    + destruct (specialize_line_directive m cseq l s D) as [-> ->].
      rewrite filter_loop_cons.
      destruct (generalize_line_directive m cseq l s D) as [-> ->].
      now rewrite IH.
    + rewrite specialize_line_plain by assumption. cbn [mode written].
      rewrite filter_loop_cons. destruct s.
      * rewrite generalize_line_plain by auto. cbn [mode written].
        rewrite strip_commented by assumption. now rewrite IH.
      * rewrite generalize_line_plain by assumption. cbn [mode written].
        now rewrite IH.
Qed.

(** X3: Generalize undoes specialize on a text none of whose lines turns into
    a directive when the comment sequence is put before it: specialize
    writes a stage text, and generalizing that gives the repository text
    back, as it is read. *)
Theorem generalize_restores_repository_text (m : Manager)
  (content first cseq : str) (rest : list str) :
  readlines content = first :: rest ->
  fst (_identify_comment_sequence m first) = Return cseq ->
  Forall (fun l => is_directive cseq l = false ->
                   is_directive cseq (cseq ++ l) = false) (first :: rest) ->
  exists y,
    specialize_text m content = Return (Some y)
    /\ generalize_text m y = Return (Some (universal_newlines content)).
Proof.
  intros Hr Hi F.
  destruct (identify_return m first cseq Hi) as [Hne Hns].
  pose proof (nonspace_no_newline cseq Hns) as Hnl.
  assert (Hok : lines_ok (first :: rest))
    by (rewrite <- Hr; apply readlines_ok).
  destruct (roundtrip_loop m cseq (first :: rest) Hne false false)
    as (_ & Fy & _); [auto|]. cbv zeta in Fy.
  set (ys := fst (filter_loop (specialize_line m cseq) false
                    (first :: rest))) in *.
  assert (Hy : ys = first :: tl ys).
  { unfold ys. rewrite filter_loop_cons, specialize_line_verbatim.
    reflexivity. }
  exists (concat ys). split.
  - unfold specialize_text.
    now rewrite (filter_text_lines specialize_line m content first cseq rest).
  - unfold generalize_text.
    rewrite (filter_text_lines generalize_line m (concat ys) first cseq
               (tl ys)).
    + rewrite <- Hy. unfold ys. rewrite restore_loop by assumption.
      now rewrite <- Hr, concat_readlines.
    + rewrite <- Hy. apply readlines_concat.
      now apply (lines_ok_commented cseq (first :: rest)).
    + assumption.
Qed.

Lemma generalize_restores_repository_text_witness :
  exists y,
    specialize_text (example_manager ["home"] false)
      (text ["# dotfile"; "##only work"; "secret"; "##end"; "x"])
    = Return (Some y)
    /\ generalize_text (example_manager ["home"] false) y
       = Return (Some (universal_newlines
                         (text ["# dotfile"; "##only work"; "secret";
                                "##end"; "x"]))).
Proof.
  apply (generalize_restores_repository_text
           (example_manager ["home"] false)
           (text ["# dotfile"; "##only work"; "secret"; "##end"; "x"])
           (lit "# dotfile" ++ [LF]) (lit "#")
           [lit "##only work" ++ [LF]; lit "secret" ++ [LF];
            lit "##end" ++ [LF]; lit "x" ++ [LF]]).
  - reflexivity.
  - reflexivity.
  - repeat (apply Forall_cons;
            [intros H; (reflexivity || discriminate H)|]).
    apply Forall_nil.
Defined.

Lemma suppresses_plain (m : Manager) (cseq line : str) :
  is_directive cseq line = false -> suppresses m cseq line = false.
Proof.
  intros H. apply is_directive_false in H as (H1 & H2 & _).
  unfold suppresses. now rewrite H1, H2.
Qed.

Lemma unsuppressed_loop (body : Manager -> str -> bool -> str -> turn)
  (m : Manager) (cseq : str) (lines : list str) :
  (forall line s, is_directive cseq line = true ->
     mode (body m cseq s line) = suppresses m cseq line
     /\ written (body m cseq s line) = line) ->
  (forall line, is_directive cseq line = false ->
     body m cseq false line = Turn false line []) ->
  Forall (fun l => suppresses m cseq l = false) lines ->
  fst (filter_loop (body m cseq) false lines) = lines.
Proof.
  intros Hd Hp F. induction F as [|l lines Hl F IH]; [reflexivity|].
  rewrite filter_loop_cons. destruct (is_directive cseq l) eqn:D.
  - destruct (Hd l false D) as [-> ->]. now rewrite Hl, IH.
  - rewrite (Hp l D). cbn [mode written]. now rewrite IH.
Qed.

(** X4: A text in which no directive line suppresses for this host, the block
    [only] for one of its tags or [not] for none of them, passes both
    filters unchanged. *)
Theorem admitted_text_unchanged (m : Manager) (content first cseq : str)
  (rest : list str) :
  readlines content = first :: rest ->
  fst (_identify_comment_sequence m first) = Return cseq ->
  Forall (fun l => suppresses m cseq l = false) (first :: rest) ->
  specialize_text m content = Return (Some (universal_newlines content))
  /\ generalize_text m content = Return (Some (universal_newlines content)).
Proof.
  intros Hr Hi F. split.
  - unfold specialize_text.
    rewrite (filter_text_lines specialize_line m content first cseq rest)
      by assumption.
    rewrite (unsuppressed_loop specialize_line); try assumption.
    + now rewrite <- Hr, concat_readlines.
    + intros line s. apply specialize_line_directive.
    + intros line. apply specialize_line_plain.
  - unfold generalize_text.
    rewrite (filter_text_lines generalize_line m content first cseq rest)
      by assumption.
    rewrite (unsuppressed_loop generalize_line); try assumption.
    + now rewrite <- Hr, concat_readlines.
    + intros line s. apply generalize_line_directive.
    + intros line. apply generalize_line_plain.
Qed.

Lemma admitted_text_unchanged_witness :
  specialize_text (example_manager ["work"; "big"] false)
    (text ["# dotfile"; "##only work"; "secret"; "##not home"; "x"; "##end"])
  = Return (Some (universal_newlines
                    (text ["# dotfile"; "##only work"; "secret";
                           "##not home"; "x"; "##end"])))
  /\ generalize_text (example_manager ["work"; "big"] false)
       (text ["# dotfile"; "##only work"; "secret"; "##not home"; "x";
              "##end"])
     = Return (Some (universal_newlines
                       (text ["# dotfile"; "##only work"; "secret";
                              "##not home"; "x"; "##end"]))).
Proof.
  apply (admitted_text_unchanged (example_manager ["work"; "big"] false)
           (text ["# dotfile"; "##only work"; "secret"; "##not home"; "x";
                  "##end"])
           (lit "# dotfile" ++ [LF]) (lit "#")
           [lit "##only work" ++ [LF]; lit "secret" ++ [LF];
            lit "##not home" ++ [LF]; lit "x" ++ [LF]; lit "##end" ++ [LF]]).
  - reflexivity.
  - reflexivity.
  - repeat (apply Forall_cons; [reflexivity|]). apply Forall_nil.
Defined.

Lemma split_whitespace_words (s : str) :
  Forall (fun t => t <> [] /\ forallb nonspace t = true) (split_whitespace s).
Proof. now apply runs_from_nonspace. Qed.

(** No line lists the empty string as a tag. *)
Lemma empty_tag_not_listed (line : str) :
  tag_in (section_tags_of line) [] = false.
Proof.
  unfold tag_in, section_tags_of.
  pose proof (split_whitespace_words line) as F.
  destruct (split_whitespace line) as [|t ts]; [reflexivity|].
  inversion F as [|? ? _ F']; subst. cbn [tl]. clear F.
  induction F' as [|x ts [Hx _] F IH]; [reflexivity|].
  cbn [existsb]. rewrite IH. destruct x; [congruence|reflexivity].
Qed.

(** X5: On a host without entry in the tag configuration, whose tag list holds
    the empty string alone, no directive lists a tag of the host: in both
    filters a directive line leaves suppression on exactly when it carries
    the [only] marker, whatever tags it lists. *)
Theorem unknown_host_only_blocks_suppressed (m : Manager) (cseq line : str)
  (s : bool) :
  _tags m = [[]] ->
  is_directive cseq line = true ->
  mode (specialize_line m cseq s line)
  = str_in (cseq ++ cseq ++ lit "only") line
  /\ mode (generalize_line m cseq s line)
     = str_in (cseq ++ cseq ++ lit "only") line.
Proof.
  intros Ht D.
  destruct (specialize_line_directive m cseq line s D) as [-> _].
  destruct (generalize_line_directive m cseq line s D) as [-> _].
  unfold suppresses, host_listed. rewrite Ht. cbn [filter].
  rewrite empty_tag_not_listed. cbn [truthy negb].
  rewrite andb_true_r, andb_false_r, orb_false_r. auto.
Qed.

Lemma unknown_host_only_blocks_suppressed_witness :
  mode (specialize_line
          {| dotfile_repository := example_repository;
             dotfile_stage_path := lit "/stage";
             dotfile_tag_config_path := lit "/repo/tags.conf";
             verbose := false;
             _tags := [[]] |}
          (lit "#") false (directive_line (lit "#") "not" ["work"]))
  = str_in (lit "#" ++ lit "#" ++ lit "only")
      (directive_line (lit "#") "not" ["work"]).
Proof.
  apply (unknown_host_only_blocks_suppressed
           {| dotfile_repository := example_repository;
              dotfile_stage_path := lit "/stage";
              dotfile_tag_config_path := lit "/repo/tags.conf";
              verbose := false;
              _tags := [[]] |}
           (lit "#") (directive_line (lit "#") "not" ["work"]) false);
    reflexivity.
Defined.

(** * Further properties of the tag resolver and the paths *)

Lemma split_colon_second (host line : str) :
  startswith (host ++ lit ":") line = true ->
  exists field, nth_error (str_split (lit ":") line) 1 = Some field.
Proof.
  intros H. apply startswith_inv in H as [r ->].
  rewrite <- app_assoc.
  destruct (partition (lit ":") (host ++ lit ":" ++ r)) as [[a b]|] eqn:P.
  - eexists. apply (split_field_1 (lit ":") _ a b); [discriminate|exact P].
  - apply partition_none in P. now rewrite str_in_intro in P.
Qed.

(** X6: Once the tag configuration is read, the scan for the host's line always
    returns: taking the second field of a line that starts with the host
    name and a colon cannot fail.  The tags returned are words, not empty
    and without whitespace, unless no line is for the host, when the list
    holds the empty string alone. *)
Theorem get_tags_scan_returns (verbose : bool) (host : str)
  (tag_config : list str) (w : world) :
  exists tags w',
    _get_tags_scan verbose host tag_config w = (Return tags, w')
    /\ files w' = files w
    /\ (tags = [[]]
        \/ Forall (fun t => t <> [] /\ forallb nonspace t = true) tags).
Proof.
  induction tag_config as [|line rest IH]; cbn [_get_tags_scan].
  - eexists _, _. rewrite bind_eq, print_eq. cbn [ret].
    repeat split. now left.
  - destruct (startswith (host ++ lit ":") line) eqn:E; [|exact IH].
    destruct (split_colon_second host line E) as [field ->].
    destruct verbose; cbn [when]; rewrite bind_eq; [rewrite print_eq|];
      cbn [ret]; eexists _, _; (split; [reflexivity|]);
      (split; [reflexivity|]); right; apply split_whitespace_words.
Qed.

Lemma join_relative (a p : str) :
  startswith [SEP] p = false ->
  exists between, join a p = a ++ between ++ p
                  /\ (between = [] \/ between = [SEP]).
Proof.
  intros H. unfold join. rewrite H. destruct a as [|c a].
  - exists []. auto.
  - destruct (Ascii.eqb (last (c :: a) SEP) SEP).
    + exists []. auto.
    + exists [SEP]. auto.
Qed.

Lemma join_injective (a p q : str) :
  startswith [SEP] p = false -> startswith [SEP] q = false ->
  join a p = join a q -> p = q.
Proof.
  intros Hp Hq. unfold join. rewrite Hp, Hq. destruct a as [|c a]; [auto|].
  destruct (Ascii.eqb (last (c :: a) SEP) SEP); intros E.
  - now apply app_inv_head in E.
  - apply app_inv_head in E. now injection E.
Qed.

(** X7: The three locations of a dotfile.  Dotfiles with different relative
    names have different stage files, different repository files and
    different home files, each under its root.  A name that starts with a
    separator is not put under the stage or repository root: its stage
    path and its repository path are the name itself. *)
Theorem dotfile_locations (m : Manager) (home p q : str) :
  (startswith [SEP] p = false -> startswith [SEP] q = false ->
   (stage_path m p = stage_path m q -> p = q)
   /\ (repo_path m p = repo_path m q -> p = q)
   /\ startswith (dotfile_stage_path m) (stage_path m p) = true
   /\ startswith (path (dotfile_repository m)) (repo_path m p) = true)
  /\ (home_path home p = home_path home q -> p = q)
  /\ (startswith [SEP] p = true ->
      stage_path m p = p /\ repo_path m p = p).
Proof.
  split; [|split].
  - intros Hp Hq. unfold stage_path, repo_path. repeat split.
    + now apply join_injective.
    + now apply join_injective.
    + destruct (join_relative (dotfile_stage_path m) p Hp) as (b & -> & _).
      apply startswith_app.
    + destruct (join_relative (path (dotfile_repository m)) p Hp)
        as (b & -> & _).
      apply startswith_app.
  - unfold home_path. intros E. apply app_inv_head in E. now injection E.
  - intros H. unfold stage_path, repo_path, join. now rewrite H.
Qed.

Lemma dotfile_locations_witness :
  startswith (lit "/stage")
    (stage_path (example_manager ["home"] false) (lit ".config/git/config"))
  = true
  /\ stage_path (example_manager ["home"] false) (lit "/etc/motd")
     = lit "/etc/motd".
Proof.
  split.
  - apply (proj1 (dotfile_locations (example_manager ["home"] false)
                    (lit "/home/user") (lit ".config/git/config")
                    (lit ".vimrc"))
             eq_refl eq_refl).
  - apply (proj2 (proj2 (dotfile_locations (example_manager ["home"] false)
                           (lit "/home/user") (lit "/etc/motd")
                           (lit "/etc/motd")))
             eq_refl).
Defined.

(** * Further properties of the operations *)

Lemma print_all_eq (ss : list str) (w : world) :
  exists w',
    print_all ss w = (Return tt, w')
    /\ files w' = files w /\ stdout w' = stdout w ++ ss
    /\ HOME w' = HOME w.
Proof.
  revert w; induction ss as [|s ss IH]; intros w; cbn [print_all].
  - exists w. rewrite app_nil_r. auto.
  - rewrite bind_eq, print_eq.
    destruct (IH (printed_to w [s])) as (w' & -> & E1 & E2 & E3).
    exists w'. repeat split; try assumption.
    rewrite E2. cbn [printed_to stdout]. now rewrite <- app_assoc.
Qed.

Lemma filter_and_write_blank (body : Manager -> str -> bool -> str -> turn)
  (m : Manager) (first : str) (rest : list str) :
  forallb isspace first = true ->
  filter_and_write body m (first :: rest)
  = (Exit, [lit "Could not identify a comment character!"]).
Proof.
  intros H. unfold filter_and_write, _identify_comment_sequence,
    findall_nonspace.
  now rewrite runs_from_all_space.
Qed.

Lemma run_filter_exit (r : outcome (list str) * list str) (dotfile : str)
  (w : world) :
  fst r = Exit ->
  exists w',
    run_filter r dotfile w = (Exit, w')
    /\ files w' = files w /\ stdout w' = stdout w ++ snd r.
Proof.
  intros H. unfold run_filter. rewrite bind_eq.
  destruct (print_all_eq (snd r) w) as (w' & -> & E1 & E2 & _).
  rewrite H. now exists w'.
Qed.

(** Opening for writing a path that holds a regular file or nothing, with
    what stays as it was. *)
Lemma open_w_regular (p : str) (w : world) :
  (files w p = None \/ exists old, files w p = Some (File old)) ->
  exists w',
    open_w p w = (Return p, w')
    /\ files w' p = Some (File [])
    /\ (forall q, q <> p -> files w' q = files w q)
    /\ stdout w' = stdout w /\ HOME w' = HOME w.
Proof.
  intros H. unfold open_w. rewrite bind_eq. unfold get at 1. cbv beta.
  assert (E : follow MAXSYMLINKS (files w) p = Some (p, files w p)).
  { unfold MAXSYMLINKS. cbn [follow]. now destruct H as [->|[old ->]]. }
  rewrite E.
  destruct H as [H|[old H]]; rewrite H; (eexists; split; [reflexivity|]);
    cbn [files stdout HOME]; rewrite str_eqb_refl;
    (repeat split; auto); intros q Hq; now rewrite str_eqb_neq.
Qed.



(** X9: An empty file is passed over: specialize on an empty repository file
    and generalize on an empty stage file print their first message and
    return; nothing is written, no link is made and the collaborator is not
    called, whatever [link], [commit] and [message] are. *)
Theorem empty_file_is_passed_over (m : Manager) (dotfile_path : str)
  (w : world) :
  (files w (repo_path m dotfile_path) = Some (File []) ->
   forall link_,
     specialize m dotfile_path link_ w
     = (Return tt, printed_to w [lit "Specializing " ++ dotfile_path]))
  /\ (files w (stage_path m dotfile_path) = Some (File []) ->
      forall commit message,
        generalize m dotfile_path commit message w
        = (Return tt, printed_to w [lit "Generalizing " ++ dotfile_path])).
Proof.
  split.
  - intros H link_. unfold specialize. rewrite bind_eq, print_eq, bind_eq.
    rewrite open_readlines_file with (content := []) by exact H.
    reflexivity.
  - intros H commit message. unfold generalize.
    rewrite bind_eq, print_eq, bind_eq. unfold try_except. rewrite bind_eq.
    rewrite open_readlines_file with (content := []) by exact H.
    reflexivity.
Qed.

Lemma empty_file_is_passed_over_witness :
  specialize (example_manager ["home"] false) (lit "a.txt") true
    (example_world [])
  = (Return tt, printed_to (example_world []) [lit "Specializing a.txt"]).
Proof.
  apply (proj1 (empty_file_is_passed_over (example_manager ["home"] false)
                  (lit "a.txt") (example_world []))).
  reflexivity.
Defined.

(** X10: A stage file whose first line is blank costs the repository its copy:
    generalize opens the repository file for writing, which empties it,
    then finds no comment sequence in the first line, prints its message
    and exits the process.  Nothing else changes in the file system. *)
Theorem generalize_blank_first_line_empties_repository (m : Manager)
  (dotfile_path content first : str) (rest : list str) (commit : bool)
  (message : option str) (w : world) :
  files w (stage_path m dotfile_path) = Some (File content) ->
  readlines content = first :: rest ->
  forallb isspace first = true ->
  files w (repo_path m (dirname dotfile_path)) = Some Dir ->
  (files w (repo_path m dotfile_path) = None
   \/ exists old, files w (repo_path m dotfile_path) = Some (File old)) ->
  exists w',
    generalize m dotfile_path commit message w = (Exit, w')
    /\ files w' (repo_path m dotfile_path) = Some (File [])
    /\ (forall q, q <> repo_path m dotfile_path -> files w' q = files w q)
    /\ stdout w'
       = stdout w ++ [lit "Generalizing " ++ dotfile_path;
                      lit "Could not identify a comment character!"].
Proof.
  intros Hstage Hr Hb Hdir Hrepo.
  unfold generalize. rewrite bind_eq, print_eq. rewrite bind_eq.
  set (w0 := printed_to w _).
  unfold try_except at 1. rewrite bind_eq.
  rewrite open_readlines_file with (content := content) by exact Hstage.
  cbn [ret]. rewrite Hr.
  rewrite bind_eq, makedirs_existing by exact Hdir.
  rewrite bind_eq.
  destruct (open_w_regular (repo_path m dotfile_path) w0 Hrepo)
    as (w1 & -> & E1 & F1 & S1 & _).
  rewrite bind_eq.
  destruct (run_filter_exit
              (generalize_filter_and_write m (first :: rest))
              (repo_path m dotfile_path) w1) as (w2 & -> & E2 & S2).
  { unfold generalize_filter_and_write.
    now rewrite filter_and_write_blank. }
  exists w2. split; [reflexivity|]. rewrite E2. repeat split; auto.
  rewrite S2, S1. unfold generalize_filter_and_write.
  rewrite filter_and_write_blank by assumption.
  unfold w0. cbn [printed_to stdout snd]. now rewrite <- app_assoc.
Qed.

Lemma generalize_blank_first_line_empties_repository_witness :
  exists w',
    generalize (example_manager ["home"] false) (lit "conf/a.txt") false None
      (conf_world (Some (File (text ["# settings"; "x = 1"])))
         (Some (File ([LF] ++ text ["# settings"; "x = 1"]))) None)
    = (Exit, w')
    /\ files w' (lit "/repo/conf/a.txt") = Some (File []).
Proof.
  destruct (generalize_blank_first_line_empties_repository
              (example_manager ["home"] false) (lit "conf/a.txt")
              ([LF] ++ text ["# settings"; "x = 1"]) [LF]
              [lit "# settings" ++ [LF]; lit "x = 1" ++ [LF]] false None
              (conf_world (Some (File (text ["# settings"; "x = 1"])))
                 (Some (File ([LF] ++ text ["# settings"; "x = 1"]))) None))
    as (w' & E & F & _).
  - reflexivity.
  - reflexivity.
  - reflexivity.
  - reflexivity.
  - right. eexists. reflexivity.
  - exists w'. split; assumption.
Defined.

(** X11: A repository file whose first line is blank leaves the stage file
    empty: specialize opens the stage file for writing, which empties it,
    then finds no comment sequence in the first line, prints its message
    and exits the process before any link is made.  Nothing else changes
    in the file system. *)
Theorem specialize_blank_first_line_empties_stage (m : Manager)
  (dotfile_path content first : str) (rest : list str) (link_ : bool)
  (w : world) :
  files w (repo_path m dotfile_path) = Some (File content) ->
  readlines content = first :: rest ->
  forallb isspace first = true ->
  files w (stage_path m (dirname dotfile_path)) = Some Dir ->
  (files w (stage_path m dotfile_path) = None
   \/ exists old, files w (stage_path m dotfile_path) = Some (File old)) ->
  exists w',
    specialize m dotfile_path link_ w = (Exit, w')
    /\ files w' (stage_path m dotfile_path) = Some (File [])
    /\ (forall q, q <> stage_path m dotfile_path -> files w' q = files w q)
    /\ stdout w'
       = stdout w ++ [lit "Specializing " ++ dotfile_path;
                      lit "Could not identify a comment character!"].
Proof.
  intros Hrepo Hr Hb Hdir Hstage.
  unfold specialize. rewrite bind_eq, print_eq. rewrite bind_eq.
  set (w0 := printed_to w _).
  rewrite open_readlines_file with (content := content) by exact Hrepo.
  rewrite Hr.
  rewrite bind_eq, makedirs_existing by exact Hdir.
  rewrite bind_eq.
  destruct (open_w_regular (stage_path m dotfile_path) w0 Hstage)
    as (w1 & -> & E1 & F1 & S1 & _).
  rewrite bind_eq.
  destruct (run_filter_exit
              (specialize_filter_and_write m (first :: rest))
              (stage_path m dotfile_path) w1) as (w2 & -> & E2 & S2).
  { unfold specialize_filter_and_write.
    now rewrite filter_and_write_blank. }
  exists w2. split; [reflexivity|]. rewrite E2. repeat split; auto.
  rewrite S2, S1. unfold specialize_filter_and_write.
  rewrite filter_and_write_blank by assumption.
  unfold w0. cbn [printed_to stdout snd]. now rewrite <- app_assoc.
Qed.

Lemma specialize_blank_first_line_empties_stage_witness :
  exists w',
    specialize (example_manager ["home"] false) (lit "conf/a.txt") true
      (conf_world (Some (File ([LF] ++ text ["# settings"; "x = 1"])))
         (Some (File (text ["# settings"; "x = 1"]))) None)
    = (Exit, w')
    /\ files w' (lit "/stage/conf/a.txt") = Some (File []).
Proof.
  destruct (specialize_blank_first_line_empties_stage
              (example_manager ["home"] false) (lit "conf/a.txt")
              ([LF] ++ text ["# settings"; "x = 1"]) [LF]
              [lit "# settings" ++ [LF]; lit "x = 1" ++ [LF]] true
              (conf_world (Some (File ([LF] ++ text ["# settings"; "x = 1"])))
                 (Some (File (text ["# settings"; "x = 1"]))) None))
    as (w' & E & F & _).
  - reflexivity.
  - reflexivity.
  - reflexivity.
  - reflexivity.
  - right. eexists. reflexivity.
  - exists w'. split; assumption.
Defined.

Lemma follow_plain (fs : str -> option node) (p : str) :
  (forall t, fs p <> Some (Link t)) ->
  follow MAXSYMLINKS fs p = Some (p, fs p).
Proof.
  intros H. unfold MAXSYMLINKS. cbn [follow].
  destruct (fs p) as [[c|t|]|]; try reflexivity. now specialize (H t).
Qed.

(** A new link: nothing at the home path, its directory in place. *)
Lemma link_new (m : Manager) (dotfile_path : str) (w : world) :
  files w (home_path (HOME w) dotfile_path) = None ->
  files w (dirname (home_path (HOME w) dotfile_path)) = Some Dir ->
  exists w',
    link m dotfile_path w = (Return tt, w')
    /\ files w' (home_path (HOME w) dotfile_path)
       = Some (Link (stage_path m dotfile_path))
    /\ (forall q, q <> home_path (HOME w) dotfile_path ->
                  files w' q = files w q)
    /\ stdout w'
       = stdout w ++ [lit "Creating symlink "
                      ++ home_path (HOME w) dotfile_path ++ lit " -> "
                      ++ stage_path m dotfile_path]
    /\ HOME w' = HOME w.
Proof.
  intros Hh Hd. unfold link. rewrite bind_eq. unfold get at 1. cbv beta.
  rewrite bind_eq. unfold exists_, get.
  rewrite follow_plain by (intros t; congruence). rewrite Hh.
  rewrite bind_eq, print_eq. set (w0 := printed_to w _).
  rewrite bind_eq, makedirs_existing by exact Hd.
  unfold symlink. rewrite bind_eq. unfold get at 1. cbv beta.
  replace (files w0) with (files w) by reflexivity. rewrite Hh.
  eexists. split; [reflexivity|]. cbn [files stdout HOME w0 printed_to].
  rewrite str_eqb_refl. repeat split; auto.
  intros q Hq. now rewrite str_eqb_neq.
Qed.

(** X12: The three cases of [link].  When the home path leads to something, a
    file, a directory or a link to one, nothing is done.  When nothing is
    stored there, the link to the stage path is made, whether the stage
    file exists or not.  When a link is stored there that leads nowhere,
    the home path counts as free and making the link raises
    [FileExistsError]. *)
Theorem link_cases (m : Manager) (dotfile_path : str) (w : world) :
  (forall q n,
      follow MAXSYMLINKS (files w) (home_path (HOME w) dotfile_path)
      = Some (q, Some n) ->
      link m dotfile_path w = (Return tt, w))
  /\ (files w (home_path (HOME w) dotfile_path) = None ->
      files w (dirname (home_path (HOME w) dotfile_path)) = Some Dir ->
      exists w',
        link m dotfile_path w = (Return tt, w')
        /\ files w' (home_path (HOME w) dotfile_path)
           = Some (Link (stage_path m dotfile_path))
        /\ (forall q, q <> home_path (HOME w) dotfile_path ->
                      files w' q = files w q))
  /\ (forall target q,
      files w (home_path (HOME w) dotfile_path) = Some (Link target) ->
      follow MAXSYMLINKS (files w) (home_path (HOME w) dotfile_path)
      = Some (q, None) ->
      files w (dirname (home_path (HOME w) dotfile_path)) = Some Dir ->
      link m dotfile_path w
      = (Raise FileExistsError,
         printed_to w [lit "Creating symlink "
                       ++ home_path (HOME w) dotfile_path ++ lit " -> "
                       ++ stage_path m dotfile_path])).
Proof.
  split; [|split].
  - intros q n H. unfold link. rewrite bind_eq. unfold get at 1. cbv beta.
    rewrite bind_eq. unfold exists_, get. now rewrite H.
  - intros Hh Hd. destruct (link_new m dotfile_path w Hh Hd)
      as (w' & E & F1 & F2 & _). now exists w'.
  - intros target q Hl Hf Hd. unfold link.
    rewrite bind_eq. unfold get at 1. cbv beta.
    rewrite bind_eq. unfold exists_, get. rewrite Hf.
    rewrite bind_eq, print_eq. set (w0 := printed_to w _).
    rewrite bind_eq, makedirs_existing by exact Hd.
    unfold symlink. rewrite bind_eq. unfold get at 1. cbv beta.
    replace (files w0) with (files w) by reflexivity. now rewrite Hl.
Qed.

Lemma link_cases_witness :
  link (example_manager ["home"] false) (lit ".vimrc") managed_world
  = (Return tt, managed_world)
  /\ (exists w',
         link (example_manager ["home"] false) (lit "conf/a.txt")
           (conf_world None None None)
         = (Return tt, w')
         /\ files w' (lit "/home/user/conf/a.txt")
            = Some (Link (lit "/stage/conf/a.txt")))
  /\ fst (link (example_manager ["home"] false) (lit "conf/a.txt")
            (conf_world None None (Some (Link (lit "/stage/conf/a.txt")))))
     = Raise FileExistsError.
Proof.
  split; [|split].
  - apply (proj1 (link_cases (example_manager ["home"] false) (lit ".vimrc")
                    managed_world)
             (lit "/stage/.vimrc") (File (text ["set nocompatible"]))).
    reflexivity.
  - destruct (proj1 (proj2 (link_cases (example_manager ["home"] false)
                              (lit "conf/a.txt")
                              (conf_world None None None)))
                eq_refl eq_refl) as (w' & E & F & _).
    exists w'. split; assumption.
  - rewrite (proj2 (proj2 (link_cases (example_manager ["home"] false)
                             (lit "conf/a.txt")
                             (conf_world None None
                                (Some (Link (lit "/stage/conf/a.txt"))))))
               (lit "/stage/conf/a.txt") (lit "/stage/conf/a.txt")
               eq_refl eq_refl eq_refl).
    reflexivity.
Defined.

(** Moving a file to a free path. *)
Lemma move_to_free (src dst : str) (n : node) (w : world) :
  files w src = Some n -> files w dst = None ->
  exists w',
    move src dst w = (Return tt, w')
    /\ files w' src = None /\ files w' dst = Some n
    /\ (forall q, q <> src -> q <> dst -> files w' q = files w q)
    /\ stdout w' = stdout w /\ HOME w' = HOME w.
Proof.
  intros Hs Hd. assert (Hne : src <> dst) by congruence.
  unfold move. rewrite bind_eq. unfold get at 1. cbv beta. rewrite Hs.
  rewrite bind_eq. unfold isdir, get.
  rewrite follow_plain by (intros t; congruence). rewrite Hd.
  eexists. split; [reflexivity|]. cbn [files stdout HOME].
  rewrite str_eqb_refl. rewrite (str_eqb_neq dst src) by congruence.
  rewrite str_eqb_refl. repeat split; auto.
  intros q H1 H2. now rewrite !str_eqb_neq.
Qed.

(** [specialize] up to its last step, the link. *)
Lemma specialize_stage_any (m : Manager) (dotfile_path content y : str)
  (link_ : bool) (w : world) :
  files w (repo_path m dotfile_path) = Some (File content) ->
  files w (stage_path m (dirname dotfile_path)) = Some Dir ->
  (files w (stage_path m dotfile_path) = None
   \/ exists old, files w (stage_path m dotfile_path) = Some (File old)) ->
  specialize_text m content = Return (Some y) ->
  exists w',
    specialize m dotfile_path link_ w
    = (if link_ then link m dotfile_path w' else (Return tt, w'))
    /\ files w' (stage_path m dotfile_path) = Some (File y)
    /\ (forall q, q <> stage_path m dotfile_path -> files w' q = files w q)
    /\ HOME w' = HOME w.
Proof.
  intros Hrepo Hdir Hstage Hy.
  unfold specialize_text, filter_text in Hy.
  unfold specialize. rewrite bind_eq, print_eq. rewrite bind_eq.
  rewrite open_readlines_file with (content := content) by exact Hrepo.
  destruct (readlines content) as [|first rest]; [discriminate|].
  set (lines := first :: rest) in *.
  destruct (fst (filter_and_write specialize_line m lines))
    as [chunks| |e] eqn:Hf; try discriminate.
  injection Hy as <-.
  set (w0 := printed_to w _).
  rewrite bind_eq, makedirs_existing by exact Hdir.
  rewrite bind_eq.
  destruct (open_w_regular (stage_path m dotfile_path) w0 Hstage)
    as (w1 & -> & E1 & F1 & _ & H1).
  rewrite bind_eq. unfold run_filter at 1. rewrite bind_eq.
  destruct (print_all_eq (snd (specialize_filter_and_write m lines)) w1)
    as (w2 & -> & E2 & _ & H2).
  unfold specialize_filter_and_write at 1. rewrite Hf.
  assert (Hw : forall chunks w old,
             files w (stage_path m dotfile_path) = Some (File old) ->
             exists w',
               write_all (stage_path m dotfile_path) chunks w
               = (Return tt, w')
               /\ files w' (stage_path m dotfile_path)
                  = Some (File (old ++ concat chunks))
               /\ (forall q, q <> stage_path m dotfile_path ->
                             files w' q = files w q)
               /\ HOME w' = HOME w).
  { clear. induction chunks as [|s chunks IH]; intros w old H;
      cbn [write_all].
    - exists w. rewrite app_nil_r. auto.
    - rewrite bind_eq. unfold write at 1. rewrite bind_eq.
      unfold get at 1. cbv beta. rewrite H. unfold store at 1.
      set (w1 := {| files := _; stdout := stdout w; HOME := HOME w;
                    hostname := hostname w |}).
      destruct (IH w1 (old ++ s)) as (w' & -> & E & F & Hh).
      { unfold w1. cbn [files]. now rewrite str_eqb_refl. }
      exists w'. split; [reflexivity|]. repeat split.
      + rewrite E. cbn [concat]. now rewrite app_assoc.
      + intros q Hq. rewrite (F q Hq). unfold w1. cbn [files].
        now rewrite str_eqb_neq.
      + now rewrite Hh. }
  destruct (Hw chunks w2 []) as (w3 & -> & E3 & F3 & H3).
  { now rewrite E2. }
  exists w3. split; [now destruct link_|]. repeat split.
  - exact E3.
  - intros q Hq. now rewrite (F3 q Hq), E2, (F1 q Hq).
  - now rewrite H3, H2, H1.
Qed.

(** X13: Specialize with [link] set, for a dotfile that is not in the home
    directory yet: the stage file holds the specialized text and the home
    path is a link to the stage file; nothing else changes. *)
Theorem specialize_and_link (m : Manager) (dotfile_path content y : str)
  (w : world) :
  files w (repo_path m dotfile_path) = Some (File content) ->
  files w (stage_path m (dirname dotfile_path)) = Some Dir ->
  (files w (stage_path m dotfile_path) = None
   \/ exists old, files w (stage_path m dotfile_path) = Some (File old)) ->
  files w (home_path (HOME w) dotfile_path) = None ->
  files w (dirname (home_path (HOME w) dotfile_path)) = Some Dir ->
  home_path (HOME w) dotfile_path <> stage_path m dotfile_path ->
  specialize_text m content = Return (Some y) ->
  exists w',
    specialize m dotfile_path true w = (Return tt, w')
    /\ files w' (stage_path m dotfile_path) = Some (File y)
    /\ files w' (home_path (HOME w) dotfile_path)
       = Some (Link (stage_path m dotfile_path))
    /\ (forall q, q <> stage_path m dotfile_path ->
                  q <> home_path (HOME w) dotfile_path ->
                  files w' q = files w q).
Proof.
  intros Hrepo Hsd Hstage Hhome Hhd Hne Hy.
  destruct (specialize_stage_any m dotfile_path content y true w
              Hrepo Hsd Hstage Hy) as (w1 & -> & S1 & F1 & H1).
  assert (Nd : dirname (home_path (HOME w) dotfile_path)
               <> stage_path m dotfile_path)
    by (destruct Hstage as [H|[old H]]; congruence).
  destruct (link_new m dotfile_path w1) as (w2 & -> & L2 & F2 & _).
  - rewrite H1, F1; assumption.
  - rewrite H1, F1; assumption.
  - rewrite H1 in *. exists w2. split; [reflexivity|]. repeat split.
    + rewrite F2; [assumption|congruence].
    + assumption.
    + intros q Hq1 Hq2. now rewrite F2, F1.
Qed.

Lemma specialize_and_link_witness :
  exists w',
    specialize (example_manager ["home"] false) (lit "conf/a.txt") true
      (conf_world (Some (File (text ["# dotfile"; "##only work"; "secret";
                                     "##end"])))
         None None)
    = (Return tt, w')
    /\ files w' (lit "/stage/conf/a.txt")
       = Some (File (text ["# dotfile"; "##only work"; "#secret"; "##end"]))
    /\ files w' (lit "/home/user/conf/a.txt")
       = Some (Link (lit "/stage/conf/a.txt")).
Proof.
  destruct (specialize_and_link (example_manager ["home"] false)
              (lit "conf/a.txt")
              (text ["# dotfile"; "##only work"; "secret"; "##end"])
              (text ["# dotfile"; "##only work"; "#secret"; "##end"])
              (conf_world (Some (File (text ["# dotfile"; "##only work";
                                             "secret"; "##end"])))
                 None None))
    as (w' & E & S & L & _).
  - reflexivity.
  - reflexivity.
  - now left.
  - reflexivity.
  - reflexivity.
  - discriminate.
  - vm_compute. reflexivity.
  - exists w'. repeat split; assumption.
Defined.

(** X14: Adding a regular file of the home directory whose stage path is free,
    the directories of the stage and repository paths in place: the file
    is moved to the stage, the home path becomes a link to it and the
    repository file receives the generalized text.  Nothing else changes
    in the file system; with [commit] the collaborator's [add] is called
    last. *)
Theorem add_regular_file (m : Manager) (dotfile_path content g : str)
  (commit : bool) (w : world) :
  files w (home_path (HOME w) dotfile_path) = Some (File content) ->
  files w (dirname (home_path (HOME w) dotfile_path)) = Some Dir ->
  files w (stage_path m dotfile_path) = None ->
  files w (dirname (stage_path m dotfile_path)) = Some Dir ->
  files w (repo_path m (dirname dotfile_path)) = Some Dir ->
  (files w (repo_path m dotfile_path) = None
   \/ exists old, files w (repo_path m dotfile_path) = Some (File old)) ->
  repo_path m dotfile_path <> home_path (HOME w) dotfile_path ->
  repo_path m dotfile_path <> stage_path m dotfile_path ->
  generalize_text m content = Return (Some g) ->
  exists w',
    add m dotfile_path commit w
    = (if commit
       then repo_add (dotfile_repository m) dotfile_path w'
       else (Return tt, w'))
    /\ files w' (home_path (HOME w) dotfile_path)
       = Some (Link (stage_path m dotfile_path))
    /\ files w' (stage_path m dotfile_path) = Some (File content)
    /\ files w' (repo_path m dotfile_path) = Some (File g)
    /\ (forall q, q <> home_path (HOME w) dotfile_path ->
                  q <> stage_path m dotfile_path ->
                  q <> repo_path m dotfile_path ->
                  files w' q = files w q).
Proof.
  intros Hhome Hhd Hstage _ Hrd Hrepo Nrh Nrs Hg.
  set (home := home_path (HOME w) dotfile_path) in *.
  set (stage := stage_path m dotfile_path) in *.
  set (repo := repo_path m dotfile_path) in *.
  assert (Nhs : home <> stage) by congruence.
  assert (Ndh : dirname home <> home) by congruence.
  assert (Nds : dirname home <> stage) by congruence.
  assert (Nrdh : repo_path m (dirname dotfile_path) <> home) by congruence.
  assert (Nrds : repo_path m (dirname dotfile_path) <> stage) by congruence.
  assert (Nsh : stage <> home) by (intros E; now apply Nhs).
  assert (Nhr : home <> repo) by (intros E; now apply Nrh).
  assert (Nsr : stage <> repo) by (intros E; now apply Nrs).
  unfold add. rewrite bind_eq. unfold get at 1. cbv beta.
  rewrite bind_eq. unfold islink, get. fold home. rewrite Hhome.
  rewrite bind_eq. unfold ret at 1.
  rewrite bind_eq, print_eq. set (w0 := printed_to w _).
  rewrite bind_eq. fold stage.
  destruct (move_to_free home stage (File content) w0 Hhome Hstage)
    as (w1 & -> & M1 & M2 & F1 & _ & H1).
  rewrite bind_eq.
  destruct (link_new m dotfile_path w1) as (w2 & -> & L2 & F2 & _ & H2).
  { rewrite H1. exact M1. }
  { rewrite H1. fold home. rewrite F1 by assumption. exact Hhd. }
  rewrite H1 in L2, F2. fold home stage in L2, F2.
  rewrite bind_eq.
  destruct (generalize_repo m dotfile_path content g w2)
    as (w3 & -> & G3 & F3).
  { fold stage. rewrite F2 by assumption. exact M2. }
  { rewrite F2, F1 by assumption. exact Hrd. }
  { fold repo. rewrite F2, F1 by assumption. exact Hrepo. }
  { exact Hg. }
  fold repo in G3, F3.
  exists w3. split; [now destruct commit|]. repeat split.
  - rewrite F3 by assumption. exact L2.
  - rewrite F3, F2 by assumption. exact M2.
  - exact G3.
  - intros q Q1 Q2 Q3. rewrite F3, F2, F1 by assumption. reflexivity.
Qed.

Lemma add_regular_file_witness :
  exists w',
    add (example_manager ["home"] false) (lit "conf/a.txt") false
      (conf_world None None
         (Some (File (text ["# dotfile"; "##only work"; "#secret";
                            "##end"]))))
    = (Return tt, w')
    /\ files w' (lit "/home/user/conf/a.txt")
       = Some (Link (lit "/stage/conf/a.txt"))
    /\ files w' (lit "/stage/conf/a.txt")
       = Some (File (text ["# dotfile"; "##only work"; "#secret"; "##end"]))
    /\ files w' (lit "/repo/conf/a.txt")
       = Some (File (text ["# dotfile"; "##only work"; "secret"; "##end"])).
Proof.
  destruct (add_regular_file (example_manager ["home"] false)
              (lit "conf/a.txt")
              (text ["# dotfile"; "##only work"; "#secret"; "##end"])
              (text ["# dotfile"; "##only work"; "secret"; "##end"])
              false
              (conf_world None None
                 (Some (File (text ["# dotfile"; "##only work"; "#secret";
                                    "##end"])))))
    as (w' & E & L & S & R & _).
  - reflexivity.
  - reflexivity.
  - reflexivity.
  - reflexivity.
  - reflexivity.
  - now left.
  - discriminate.
  - discriminate.
  - vm_compute. reflexivity.
  - exists w'. repeat split; assumption.
Defined.




Lemma three_passes_on_disk_witness :
  exists w1 w2 w3,
    specialize (example_manager ["home"] false) (lit "conf/a.txt") false
      (conf_world (Some (File (text ["# dotfile"; "##only work"; "secret";
                                     "##end"])))
         None None)
    = (Return tt, w1)
    /\ generalize (example_manager ["home"] false) (lit "conf/a.txt") false
         None w1
       = (Return tt, w2)
    /\ specialize (example_manager ["home"] false) (lit "conf/a.txt") false
         w2
       = (Return tt, w3)
    /\ files w3 (lit "/stage/conf/a.txt")
       = Some (File (text ["# dotfile"; "##only work"; "#secret"; "##end"])).
Proof.
  destruct (three_passes_on_disk (example_manager ["home"] false)
              (lit "conf/a.txt")
              (text ["# dotfile"; "##only work"; "secret"; "##end"])
              (text ["# dotfile"; "##only work"; "#secret"; "##end"])
              (text ["# dotfile"; "##only work"; "secret"; "##end"])
              (text ["# dotfile"; "##only work"; "#secret"; "##end"])
              (conf_world (Some (File (text ["# dotfile"; "##only work";
                                             "secret"; "##end"])))
                 None None))
    as (w1 & w2 & w3 & E1 & E2 & E3 & _ & _ & S3).
  - reflexivity.
  - reflexivity.
  - reflexivity.
  - now left.
  - discriminate.
  - vm_compute. reflexivity.
  - vm_compute. reflexivity.
  - vm_compute. reflexivity.
  - exists w1, w2, w3. repeat split; assumption.
Defined.

(** * Properties of the operations on all dotfiles *)

Lemma bindD_eq {A B} (c : D A) (k : A -> D B) (w : world) :
  bindD c k w
  = match c w with
    | Some (Return a, w') => k a w'
    | Some (Exit, w') => Some (Exit, w')
    | Some (Raise e, w') => Some (Raise e, w')
    | None => None
    end.
Proof. reflexivity. Qed.

Lemma for_each_ext (entries : list str) (b1 b2 : str -> D unit) :
  (forall entry w, b1 entry w = b2 entry w) ->
  forall w, for_each entries b1 w = for_each entries b2 w.
Proof.
  intros H. induction entries as [|e entries IH]; intros w; [reflexivity|].
  cbn [for_each]. rewrite !bindD_eq, H.
  destruct (b2 e w) as [[[[]| |x] w']|]; auto.
Qed.

Lemma isdir_eq (p : str) (w : world) (b : bool) :
  fst (isdir p w) = Return b -> isdir p w = (Return b, w).
Proof. unfold isdir, get. cbn [fst]. now intros [= <-]. Qed.

Lemma run_each_app (action : str -> M unit) (l1 l2 : list str) (w : world) :
  run_each action (l1 ++ l2) w
  = (run_each action l1 ;; run_each action l2) w.
Proof.
  revert w; induction l1 as [|p l1 IH]; intros w.
  - reflexivity.
  - cbn [app run_each]. rewrite !bind_eq.
    destruct (action p w) as [[[]| |e] w']; try reflexivity.
    rewrite IH. now rewrite bind_eq.
Qed.

Lemma run_each_keeps (action : str -> M unit) (Inv : world -> Prop)
  (paths : list str) :
  (forall p w w',
      In p paths -> Inv w -> action p w = (Return tt, w') -> Inv w') ->
  forall w w',
    Inv w -> run_each action paths w = (Return tt, w') -> Inv w'.
Proof.
  induction paths as [|p paths IH]; intros Hp w w' Hw.
  - cbn [run_each ret]. now intros [= <-].
  - cbn [run_each]. rewrite bind_eq.
    destruct (action p w) as [[[]| |e] w1] eqn:E; try discriminate.
    intros H. apply (IH (fun q w0 w0' Hq => Hp q w0 w0' (or_intror Hq)) w1);
      [|assumption].
    apply (Hp p w); auto. now left.
Qed.

Lemma tree_depth_entry (es : list (str * tree)) (e : str * tree) :
  In e es -> tree_depth (snd e) < tree_depth (Node es).
Proof.
  cbn [tree_depth]. induction es as [|x es IH]; intros H; [easy|].
  cbn [fold_right]. destruct H as [->|H].
  - lia.
  - specialize (IH H). lia.
Qed.

(** The entries of one directory: each is skipped, walked or acted on.
    [Inv] is what the actions on the files keep and what makes the file
    system show the tree. *)
Lemma visit_entries (listdir : str -> M (list str)) (abs : str -> str)
  (skip : str -> bool) (action : str -> M unit) (Inv : world -> Prop)
  (d : nat) (mk : str -> str) :
  (forall rel es,
      tree_depth (Node es) <= d ->
      (forall p w w',
          In p (files_below skip rel (Node es)) ->
          Inv w -> action p w = (Return tt, w') -> Inv w') ->
      (forall w, Inv w -> shows listdir abs skip w rel (Node es)) ->
      forall w, Inv w ->
        walk_directory listdir abs skip action d rel w
        = Some (run_each action (files_below skip rel (Node es)) w)) ->
  forall es,
    Forall (fun e => tree_depth (snd e) <= d) es ->
    (forall p w w',
        In p (flat_map (fun e => if skip (fst e) then []
                                 else files_below skip (mk (fst e)) (snd e))
                es) ->
        Inv w -> action p w = (Return tt, w') -> Inv w') ->
    (forall w, Inv w ->
       Forall (fun e => skip (fst e) = true
                        \/ shows listdir abs skip w (mk (fst e)) (snd e))
         es) ->
    forall w, Inv w ->
      for_each (map fst es)
        (fun entry =>
           if skip entry then liftD (ret tt)
           else bindD (liftD (isdir (abs (mk entry)))) (fun dd =>
                if dd
                then walk_directory listdir abs skip action d (mk entry)
                else liftD (action (mk entry)))) w
      = Some (run_each action
                (flat_map (fun e => if skip (fst e) then []
                                    else files_below skip (mk (fst e))
                                           (snd e)) es) w).
Proof.
  intros Hwalk. induction es as [|[name t] es IH]; intros Hd Hp Hs w Hw.
  - reflexivity.
  - cbn [map fst for_each flat_map snd] in *. rewrite bindD_eq.
    assert (Hd' : Forall (fun e => tree_depth (snd e) <= d) es)
      by now inversion Hd.
    assert (Hs' : forall w, Inv w ->
              Forall (fun e => skip (fst e) = true
                               \/ shows listdir abs skip w (mk (fst e))
                                    (snd e)) es).
    { intros w0 Hw0. specialize (Hs w0 Hw0). now inversion Hs. }
    assert (Hp' : forall p w w',
              In p (flat_map (fun e => if skip (fst e) then []
                                       else files_below skip (mk (fst e))
                                              (snd e)) es) ->
              Inv w -> action p w = (Return tt, w') -> Inv w').
    { intros q w0 w0' Hq. apply Hp. apply in_or_app. now right. }
    destruct (skip name) eqn:Sk.
    + cbn [liftD ret app]. now apply IH.
    + assert (Ht : forall w, Inv w ->
                shows listdir abs skip w (mk name) t).
      { intros w0 Hw0. specialize (Hs w0 Hw0).
        inversion Hs as [|? ? [H|H] _]; subst; cbn [fst snd] in H;
          [congruence|assumption]. }
      assert (Hp1 : forall p w w',
                In p (files_below skip (mk name) t) ->
                Inv w -> action p w = (Return tt, w') -> Inv w').
      { intros q w0 w0' Hq. apply Hp. apply in_or_app. now left. }
      rewrite run_each_app, bind_eq, bindD_eq. unfold liftD at 1.
      destruct t as [|sub].
      * pose proof (Ht w Hw) as Sh. inversion Sh as [? Hi|]; subst.
        rewrite (isdir_eq _ _ _ Hi). cbn [files_below run_each].
        unfold liftD at 1. rewrite bind_eq.
        destruct (action (mk name) w) as [[[]| |e] w1] eqn:E;
          try reflexivity.
        cbn [ret]. apply IH; try assumption.
        apply (Hp1 (mk name) w); auto. now left.
      * pose proof (Ht w Hw) as Sh. inversion Sh as [|? ? Hi _ _]; subst.
        rewrite (isdir_eq _ _ _ Hi).
        rewrite (Hwalk (mk name) sub); try assumption;
          [|inversion Hd; subst; assumption].
        destruct (run_each action (files_below skip (mk name) (Node sub)) w)
          as [[[]| |e] w1] eqn:E; try reflexivity.
        apply IH; try assumption.
        now apply (run_each_keeps action Inv
                     (files_below skip (mk name) (Node sub)) Hp1 w w1).
Qed.

(** A walk of a directory acts on the files below it. *)
Lemma walk_directory_files (listdir : str -> M (list str))
  (abs : str -> str) (skip : str -> bool) (action : str -> M unit)
  (Inv : world -> Prop) :
  forall depth rel es,
    tree_depth (Node es) <= depth ->
    (forall p w w',
        In p (files_below skip rel (Node es)) ->
        Inv w -> action p w = (Return tt, w') -> Inv w') ->
    (forall w, Inv w -> shows listdir abs skip w rel (Node es)) ->
    forall w, Inv w ->
      walk_directory listdir abs skip action depth rel w
      = Some (run_each action (files_below skip rel (Node es)) w).
Proof.
  induction depth as [|d IH]; intros rel es Hd Hp Hs w Hw.
  - cbn [tree_depth] in Hd. lia.
  - cbn [walk_directory]. rewrite bindD_eq. unfold liftD at 1.
    pose proof (Hs w Hw) as Sh. inversion Sh as [|? ? _ Hl _]; subst.
    rewrite Hl. cbn [files_below] in *.
    apply (visit_entries listdir abs skip action Inv d (join rel) IH);
      try assumption.
    + apply Forall_forall. intros e He.
      pose proof (tree_depth_entry es e He). lia.
    + intros w0 Hw0. specialize (Hs w0 Hw0).
      now inversion Hs.
Qed.

Lemma recurse_stage_directory_walk (listdir : str -> M (list str))
  (m : Manager) (action : str -> M unit) (depth : nat) :
  forall directory_path w,
    _recurse_stage_directory listdir depth m directory_path action w
    = walk_directory listdir (stage_path m) (fun _ => false) action depth
        directory_path w.
Proof.
  induction depth as [|d IH]; intros directory_path w; [reflexivity|].
  cbn [_recurse_stage_directory walk_directory]. rewrite !bindD_eq.
  destruct (liftD (listdir (stage_path m directory_path)) w)
    as [[[entries| |e] w']|]; try reflexivity.
  apply for_each_ext. intros entry w0. rewrite !bindD_eq.
  destruct (liftD (isdir (stage_path m (join directory_path entry))) w0)
    as [[[[|]| |e] w1]|]; try reflexivity.
  apply IH.
Qed.

Lemma specialize_directory_walk (listdir : str -> M (list str))
  (m : Manager) (link_ : bool) (depth : nat) :
  forall directory_path w,
    _specialize_directory listdir depth m directory_path link_ w
    = walk_directory listdir (repo_path m)
        (fun n => str_eqb n (lit ".git"))
        (fun p => specialize m p link_) depth directory_path w.
Proof.
  induction depth as [|d IH]; intros directory_path w; [reflexivity|].
  cbn [_specialize_directory walk_directory]. rewrite !bindD_eq.
  destruct (liftD (listdir (repo_path m directory_path)) w)
    as [[[entries| |e] w']|]; try reflexivity.
  apply for_each_ext. intros entry w0.
  destruct (str_eqb entry (lit ".git")); [reflexivity|].
  rewrite !bindD_eq.
  destruct (liftD (isdir (repo_path m (join directory_path entry))) w0)
    as [[[[|]| |e] w1]|]; try reflexivity.
  apply IH.
Qed.

(** X17: The walk of the stage, which [link_all], [generalize_all] and
    [delete_all] start with their action.  When the stage shows a tree of
    directories and files, in every file system that the action on a file
    of the tree can leave, and the directories nest no deeper than
    [depth], the walk is the action on the files of the tree one after the
    other: on every file and on no directory, depth first in listing
    order, each file under the relative path joined from the names on the
    way to it.  It stops with the first action that does not return. *)
Theorem perform_on_stage_acts_on_files (listdir : str -> M (list str))
  (m : Manager) (action : str -> M unit) (Inv : world -> Prop)
  (es : list (str * tree)) (depth : nat) :
  Forall (fun e => tree_depth (snd e) <= depth) es ->
  (forall p w w',
      In p (flat_map (fun e => files_below (fun _ => false) (fst e) (snd e))
              es) ->
      Inv w -> action p w = (Return tt, w') -> Inv w') ->
  (forall w, Inv w ->
     listdir (dotfile_stage_path m) w = (Return (map fst es), w)
     /\ Forall (fun e => shows listdir (stage_path m) (fun _ => false) w
                           (fst e) (snd e)) es) ->
  forall w, Inv w ->
    _perform_on_stage listdir depth m action w
    = Some (run_each action
              (flat_map (fun e => files_below (fun _ => false) (fst e)
                                    (snd e)) es) w).
Proof.
  intros Hd Hp Hs w Hw. unfold _perform_on_stage.
  rewrite bindD_eq. unfold liftD at 1.
  destruct (Hs w Hw) as [-> _].
  rewrite (for_each_ext _ _
             (fun entry =>
                if (fun _ : str => false) entry then liftD (ret tt)
                else bindD (liftD (isdir (stage_path m
                                            ((fun e : str => e) entry))))
                       (fun dd =>
                     if dd
                     then walk_directory listdir (stage_path m)
                            (fun _ => false) action depth
                            ((fun e : str => e) entry)
                     else liftD (action ((fun e : str => e) entry))))).
  - apply (visit_entries listdir (stage_path m) (fun _ => false) action Inv
             depth (fun e => e)); try assumption.
    + apply walk_directory_files.
    + intros w0 Hw0. destruct (Hs w0 Hw0) as [_ F].
      apply Forall_impl with (2 := F). intros e He. now right.
  - intros entry w0. cbv beta iota. rewrite !bindD_eq.
    destruct (liftD (isdir (stage_path m entry)) w0)
      as [[[[|]| |e] w1]|]; try reflexivity.
    apply recurse_stage_directory_walk.
Qed.

Lemma perform_on_stage_acts_on_files_witness :
  _perform_on_stage example_listdir 2 (example_manager ["home"] false) print
    example_stage_world
  = Some (run_each print [lit "a"; lit "d/b"; lit "d/e/c"]
            example_stage_world).
Proof.
  apply (perform_on_stage_acts_on_files example_listdir
           (example_manager ["home"] false) print
           (fun w => files w = files example_stage_world)
           example_stage_tree 2).
  - repeat constructor.
  - intros p w w' _ Hw E. rewrite print_eq in E. injection E as <-.
    exact Hw.
  - intros w Hw. split; [reflexivity|].
    repeat first
      [ apply Forall_nil
      | apply Forall_cons
      | apply shows_file
      | apply shows_dir
      | right
      | reflexivity
      | (unfold isdir, get; cbn [fst]; rewrite Hw; reflexivity) ].
  - reflexivity.
Defined.

(** X18: The walk of the repository by [specialize_all], without links.  When
    the repository shows a tree, in every file system that specializing a
    file of the walk can leave, the walk is specialize on these files one
    after the other, depth first in listing order: at the root every file
    but the tag configuration and every directory but the stage directory
    and [.git]; below the root everything but what is named [.git], file or
    directory.  A file named [.git] at the root is specialized, and a stage
    directory or a tag configuration below the root is walked like any
    other entry. *)
Theorem specialize_all_takes_files (listdir : str -> M (list str))
  (m : Manager) (Inv : world -> Prop) (es : list (str * tree))
  (depth : nat) :
  Forall (fun e => tree_depth (snd e) <= depth) es ->
  (forall w s, Inv w -> Inv (printed_to w [s])) ->
  (forall p w w',
      In p (specialized_files m es) ->
      Inv w -> specialize m p false w = (Return tt, w') -> Inv w') ->
  (forall w, Inv w ->
     listdir (path (dotfile_repository m)) w = (Return (map fst es), w)
     /\ Forall
          (fun e =>
             match snd e with
             | Leaf => fst (isdir (repo_path m (fst e)) w) = Return false
             | Node _ =>
                 fst (isdir (repo_path m (fst e)) w) = Return true
                 /\ (str_eqb (repo_path m (fst e)) (dotfile_stage_path m)
                     || str_eqb (fst e) (lit ".git") = true
                     \/ shows listdir (repo_path m)
                          (fun n => str_eqb n (lit ".git")) w
                          (fst e) (snd e))
             end) es) ->
  forall w, Inv w ->
    specialize_all listdir depth m false w
    = Some ((print (lit "Specializing all dotfiles") ;;
             run_each (fun p => specialize m p false)
               (specialized_files m es)) w).
Proof.
  intros Hd Hprint Hp Hs w Hw. unfold specialize_all.
  rewrite bindD_eq. unfold liftD at 1. rewrite print_eq.
  rewrite bind_eq, print_eq.
  set (w0 := printed_to w _).
  assert (Hw0 : Inv w0) by now apply Hprint.
  rewrite bindD_eq. unfold liftD at 1.
  destruct (Hs w0 Hw0) as [-> _].
  rewrite bindD_eq.
  assert (Walk : forall es',
    Forall (fun e => tree_depth (snd e) <= depth) es' ->
    (forall p w w',
        In p (specialized_files m es') ->
        Inv w -> specialize m p false w = (Return tt, w') -> Inv w') ->
    (forall w, Inv w ->
       Forall
         (fun e =>
            match snd e with
            | Leaf => fst (isdir (repo_path m (fst e)) w) = Return false
            | Node _ =>
                fst (isdir (repo_path m (fst e)) w) = Return true
                /\ (str_eqb (repo_path m (fst e)) (dotfile_stage_path m)
                    || str_eqb (fst e) (lit ".git") = true
                    \/ shows listdir (repo_path m)
                         (fun n => str_eqb n (lit ".git")) w
                         (fst e) (snd e))
            end) es') ->
    forall w, Inv w ->
      for_each (map fst es')
        (fun entry =>
           bindD (liftD (isdir (join (path (dotfile_repository m)) entry)))
             (fun d =>
           if d
           then
             if str_eqb (repo_path m entry) (dotfile_stage_path m)
                || str_eqb entry (lit ".git")
             then liftD (ret tt)
             else _specialize_directory listdir depth m entry false
           else
             if str_eqb (repo_path m entry) (dotfile_tag_config_path m)
             then liftD (ret tt)
             else liftD (specialize m entry false))) w
      = Some (run_each (fun p => specialize m p false)
                (specialized_files m es') w)).
  { clear - Hprint. induction es' as [|[name t] es' IH];
      intros Hd Hp Hs w Hw; [reflexivity|].
    assert (Hd' : Forall (fun e => tree_depth (snd e) <= depth) es')
      by now inversion Hd.
    assert (Hp' : forall p w w',
              In p (specialized_files m es') ->
              Inv w -> specialize m p false w = (Return tt, w') -> Inv w').
    { intros q w1 w1' Hq. apply Hp. unfold specialized_files.
      cbn [flat_map]. apply in_or_app. now right. }
    assert (Hs' : forall w, Inv w ->
       Forall
         (fun e =>
            match snd e with
            | Leaf => fst (isdir (repo_path m (fst e)) w) = Return false
            | Node _ =>
                fst (isdir (repo_path m (fst e)) w) = Return true
                /\ (str_eqb (repo_path m (fst e)) (dotfile_stage_path m)
                    || str_eqb (fst e) (lit ".git") = true
                    \/ shows listdir (repo_path m)
                         (fun n => str_eqb n (lit ".git")) w
                         (fst e) (snd e))
            end) es').
    { intros w1 Hw1. specialize (Hs w1 Hw1). now inversion Hs. }
    assert (Hp1 : forall p w w',
              In p (match t with
                    | Leaf =>
                        if str_eqb (repo_path m name)
                             (dotfile_tag_config_path m)
                        then []
                        else [name]
                    | Node _ =>
                        if str_eqb (repo_path m name) (dotfile_stage_path m)
                           || str_eqb name (lit ".git")
                        then []
                        else files_below (fun n => str_eqb n (lit ".git"))
                               name t
                    end) ->
              Inv w -> specialize m p false w = (Return tt, w') -> Inv w').
    { intros q w1 w1' Hq. apply Hp. unfold specialized_files.
      cbn [flat_map fst snd]. apply in_or_app. now left. }
    assert (Ht : forall w, Inv w ->
       match t with
       | Leaf => fst (isdir (repo_path m name) w) = Return false
       | Node _ =>
           fst (isdir (repo_path m name) w) = Return true
           /\ (str_eqb (repo_path m name) (dotfile_stage_path m)
               || str_eqb name (lit ".git") = true
               \/ shows listdir (repo_path m)
                    (fun n => str_eqb n (lit ".git")) w name t)
       end).
    { intros w1 Hw1. specialize (Hs w1 Hw1). now inversion Hs. }
    unfold specialized_files. cbn [map fst snd for_each flat_map].
    fold (specialized_files m es').
    rewrite run_each_app, bind_eq, bindD_eq, bindD_eq. unfold liftD at 1.
    fold (repo_path m name).
    destruct t as [|sub].
    - rewrite (isdir_eq _ _ _ (Ht w Hw)).
      destruct (str_eqb (repo_path m name) (dotfile_tag_config_path m)).
      + cbn [liftD ret run_each]. now apply IH.
      + cbn [run_each]. unfold liftD at 1. rewrite bind_eq.
        destruct (specialize m name false w) as [[[]| |e] w1] eqn:E;
          try reflexivity.
        cbn [ret]. apply IH; try assumption.
        apply (Hp1 name w); auto. now left.
    - destruct (Ht w Hw) as [Hi _]. rewrite (isdir_eq _ _ _ Hi).
      destruct (str_eqb (repo_path m name) (dotfile_stage_path m)
                || str_eqb name (lit ".git")) eqn:Sk.
      + cbn [liftD ret run_each]. now apply IH.
      + rewrite specialize_directory_walk.
        rewrite (walk_directory_files listdir (repo_path m)
                   (fun n => str_eqb n (lit ".git"))
                   (fun p => specialize m p false) Inv depth name sub);
          try assumption.
        * destruct (run_each (fun p => specialize m p false)
                      (files_below (fun n => str_eqb n (lit ".git")) name
                         (Node sub)) w) as [[[]| |e] w1] eqn:E;
            try reflexivity.
          apply IH; try assumption.
          now apply (run_each_keeps (fun p => specialize m p false) Inv
                       (files_below (fun n => str_eqb n (lit ".git")) name
                          (Node sub)) Hp1 w w1).
        * now inversion Hd.
        * intros w1 Hw1. destruct (Ht w1 Hw1) as [_ [H|H]];
            [congruence|assumption]. }
  rewrite (Walk es Hd Hp (fun w1 Hw1 => proj2 (Hs w1 Hw1)) w0 Hw0).
  now destruct (run_each (fun p => specialize m p false)
                  (specialized_files m es) w0) as [[[]| |e] w1].
Qed.

Lemma makedirs_new (p : str) (w : world) :
  files w p = None ->
  exists w',
    makedirs p w = (Return tt, w')
    /\ files w' p = Some Dir
    /\ (forall q, q <> p -> files w' q = files w q).
Proof.
  intros H. unfold makedirs. rewrite bind_eq. unfold isdir, get at 1.
  rewrite follow_plain by (intros t; congruence). rewrite H.
  rewrite bind_eq. unfold get at 1. cbv beta. rewrite H.
  eexists. split; [reflexivity|]. cbn [files].
  rewrite str_eqb_refl. split; [reflexivity|].
  intros q Hq. now rewrite str_eqb_neq.
Qed.

(** What a specialize that returns leaves: a stage file or nothing at the
    stage path, a directory or nothing at the path of its directory, and
    every other path as it was. *)
Lemma specialize_returns (m : Manager) (dotfile_path content : str)
  (w w' : world) :
  files w (repo_path m dotfile_path) = Some (File content) ->
  (files w (stage_path m (dirname dotfile_path)) = None
   \/ files w (stage_path m (dirname dotfile_path)) = Some Dir) ->
  (files w (stage_path m dotfile_path) = None
   \/ exists old, files w (stage_path m dotfile_path) = Some (File old)) ->
  stage_path m (dirname dotfile_path) <> stage_path m dotfile_path ->
  specialize m dotfile_path false w = (Return tt, w') ->
  (forall q, q <> stage_path m dotfile_path ->
             q <> stage_path m (dirname dotfile_path) ->
             files w' q = files w q)
  /\ (files w' (stage_path m (dirname dotfile_path)) = None
      \/ files w' (stage_path m (dirname dotfile_path)) = Some Dir)
  /\ (files w' (stage_path m dotfile_path) = None
      \/ exists old, files w' (stage_path m dotfile_path) = Some (File old)).
Proof.
  intros Hrepo Hsd Hsp Hne. unfold specialize.
  rewrite bind_eq, print_eq, bind_eq.
  rewrite open_readlines_file with (content := content) by exact Hrepo.
  destruct (readlines content) as [|first rest].
  - cbn [ret]. intros [= <-]. cbn [printed_to files]. auto.
  - set (lines := first :: rest). set (w0 := printed_to w _).
    rewrite bind_eq.
    assert (Hmk : exists w1,
               makedirs (stage_path m (dirname dotfile_path)) w0
               = (Return tt, w1)
               /\ files w1 (stage_path m (dirname dotfile_path)) = Some Dir
               /\ forall q, q <> stage_path m (dirname dotfile_path) ->
                            files w1 q = files w q).
    { destruct Hsd as [H|H].
      - destruct (makedirs_new (stage_path m (dirname dotfile_path)) w0 H)
          as (w1 & E & D & F). now exists w1.
      - exists w0. rewrite makedirs_existing by exact H. auto. }
    destruct Hmk as (w1 & -> & D1 & F1).
    rewrite bind_eq.
    destruct (open_w_regular (stage_path m dotfile_path) w1)
      as (w2 & -> & E2 & F2 & _).
    { rewrite F1 by auto. exact Hsp. }
    rewrite bind_eq.
    destruct (fst (specialize_filter_and_write m lines))
      as [chunks| |e] eqn:Hf.
    + destruct (run_filter_files (specialize_filter_and_write m lines)
                  chunks (stage_path m dotfile_path) w2 Hf E2)
        as (w3 & -> & E3 & F3).
      cbn [ret]. intros [= <-]. repeat split.
      * intros q Q1 Q2. now rewrite F3, F2, F1.
      * right. rewrite F3, F2 by assumption. exact D1.
      * right. eauto.
    + destruct (run_filter_exit (specialize_filter_and_write m lines)
                  (stage_path m dotfile_path) w2 Hf) as (w3 & -> & _).
      discriminate.
    + unfold run_filter. rewrite bind_eq.
      destruct (print_all_eq (snd (specialize_filter_and_write m lines)) w2)
        as (w3 & -> & _). rewrite Hf. discriminate.
Qed.

Lemma isdir_dir (p q : str) (w : world) :
  p = q -> files w q = Some Dir -> fst (isdir p w) = Return true.
Proof.
  intros -> H. unfold isdir, get, MAXSYMLINKS. cbn [fst follow].
  now rewrite H.
Qed.

Lemma isdir_file (p q : str) (w : world) (content : str) :
  p = q -> files w q = Some (File content) -> fst (isdir p w) = Return false.
Proof.
  intros -> H. unfold isdir, get, MAXSYMLINKS. cbn [fst follow].
  now rewrite H.
Qed.

Lemma specialize_all_takes_files_witness :
  specialize_all nested_listdir 1 nested_manager false nested_world
  = Some ((print (lit "Specializing all dotfiles") ;;
           run_each (fun p => specialize nested_manager p false)
             [lit "a"; lit "d/b"]) nested_world).
Proof.
  apply (specialize_all_takes_files nested_listdir nested_manager
           nested_kept nested_tree 1).
  - repeat constructor.
  - intros w s H. exact H.
  - intros p w w' Hin
      (K1 & K2 & K3 & K4 & K5 & K6 & K7 & K8 & K9 & K10) E.
    destruct Hin as [<-|[<-|[]]].
    + destruct (specialize_returns nested_manager (lit "a") _ w w' K5 K7 K9
                  ltac:(discriminate) E) as (F & D & S).
      unfold nested_kept.
      repeat split;
        first [ rewrite F by discriminate; assumption
              | exact D | exact S ].
    + destruct (specialize_returns nested_manager (lit "d/b") _ w w' K6 K8
                  K10 ltac:(discriminate) E) as (F & D & S).
      unfold nested_kept.
      repeat split;
        first [ rewrite F by discriminate; assumption
              | exact D | exact S ].
  - intros w (K1 & K2 & K3 & K4 & K5 & K6 & _). split; [reflexivity|].
    repeat first
      [ progress cbn [fst snd]
      | apply Forall_nil
      | apply Forall_cons
      | apply shows_file
      | apply shows_dir
      | split
      | (left; reflexivity)
      | right
      | reflexivity
      | apply (isdir_dir _ _ w eq_refl K1)
      | apply (isdir_dir _ _ w eq_refl K2)
      | apply (isdir_dir _ _ w eq_refl K3)
      | apply (isdir_file _ _ w _ eq_refl K4)
      | apply (isdir_file _ _ w _ eq_refl K5)
      | apply (isdir_file _ _ w _ eq_refl K6) ].
  - unfold nested_kept. repeat split; try reflexivity; try (now left).
Defined.
